(** * miniMDS [data_tools.py]: chromosome parameters, sparse structures of
    points, contact matrices, resolution reduction and consensus alignment.

    The module is Python 2: [/] between integers is floor division, which is
    [Z.div] (both round towards minus infinity and give the remainder the sign
    of the divisor); integers are unbounded, hence [Z].  Exceptions are
    results of an error monad.  Floating-point numbers are kept abstract, in
    the class [Floats], with the few operations that the module applies to
    them.  The messages printed while a file is scanned and the progress
    tracker have no effect on the results and are left out. *)

From Stdlib Require Import ZArith Lia Bool Ascii DecimalString DecimalPos DecimalZ.
From stdpp Require Import base option list gmap strings sorting.

Local Open Scope Z_scope.

(** ** Exceptions and results *)

Inductive exn : Type :=
  | ZeroDivisionError
  | IndexError
  | AttributeError
  | UnboundLocalError
  | ValueError
  | TypeError
  | AssertionError
  | SystemExit (printed : list Z) (status : Z).

Inductive result (A : Type) : Type :=
  | Ok (a : A)
  | Raise (e : exn).

Arguments Ok {A} a.
Arguments Raise {A} e.

Definition rbind {A B : Type} (r : result A) (k : A -> result B) : result B :=
  match r with
  | Ok a => k a
  | Raise e => Raise e
  end.

Notation "x <- r ;; k" := (rbind r (fun x => k))
  (at level 100, r at next level, right associativity).
Notation "r ;;; k" := (rbind r (fun _ => k))
  (at level 100, right associativity).

(** A loop [for x in l: body] over a state that the body may abort. *)
Fixpoint for_each {A S : Type} (body : S -> A -> result S) (l : list A) (s : S)
  : result S :=
  match l with
  | [] => Ok s
  | x :: l' => s' <- body s x ;; for_each body l' s'
  end.

(** [enumerate(l)]. *)
Definition enumerate {A : Type} (l : list A) : list (Z * A) :=
  zip (Z.of_nat <$> seq 0 (length l)) l.

(** ** Python primitives *)

(** [a / b] on integers. *)
Definition py_div (a b : Z) : result Z :=
  if b =? 0 then Raise ZeroDivisionError else Ok (a / b).

(** The position that the subscript [i] designates in a sequence of length
    [n]: negative subscripts count from the end. *)
Definition py_idx (n : nat) (i : Z) : result nat :=
  if (0 <=? i) && (i <? Z.of_nat n) then Ok (Z.to_nat i)
  else if (- Z.of_nat n <=? i) && (i <? 0) then Ok (Z.to_nat (Z.of_nat n + i))
  else Raise IndexError.

(** [l[i]]. *)
Definition py_get {A : Type} (l : list A) (i : Z) : result A :=
  k <- py_idx (length l) i ;;
  match l !! k with
  | Some a => Ok a
  | None => Raise IndexError
  end.

(** [l[i] = a]. *)
Definition py_set {A : Type} (l : list A) (i : Z) (a : A) : result (list A) :=
  k <- py_idx (length l) i ;; Ok (<[k := a]> l).

(** [np.zeros(n)]. *)
Definition np_zeros {A : Type} (zero : A) (n : Z) : result (list A) :=
  if n <? 0 then Raise ValueError else Ok (replicate (Z.to_nat n) zero).

(** ** Floating-point numbers

    The operations of Python and numpy on floats that the module relies on. *)
Class Floats (float : Type) : Type := {
  fzero : float;                        (* 0.0, the entries of np.zeros *)
  fadd : float -> float -> float;       (* x + y *)
  feq0 : float -> bool;                 (* x == 0 *)
  fmean : list float -> float;          (* np.mean of a column *)
  fstr : float -> string;               (* str(x) *)
  fparse : string -> option float       (* float(s); None is ValueError *)
}.

(** A dense matrix, as the list of its rows. *)
Abbreviation matrix float := (list (list float)).

(** ** ChromParameters *)

Record ChromParameters : Type := mkChrom {
  minPos : Z;            (* minimum genomic coordinate *)
  maxPos : Z;            (* maximum genomic coordinate *)
  res : Z;               (* resolution (bp) *)
  name : string;         (* e.g. "chr22" *)
  size : option Z        (* number of lines in file; None in files read back *)
}.

(** Number of possible loci. *)
Definition getLength (c : ChromParameters) : result Z :=
  q <- py_div (maxPos c - minPos c) (res c) ;; Ok (q + 1).

(** Converts genomic coordinate into point number. *)
Definition getPointNum (c : ChromParameters) (genCoord : Z) : result (option Z) :=
  if (genCoord <? minPos c) || (genCoord >? maxPos c) then Ok None
  else q <- py_div (genCoord - minPos c) (res c) ;; Ok (Some q).

(** Creates low-res version of this chromosome. *)
Definition reduceRes (c : ChromParameters) (resRatio : Z) : result ChromParameters :=
  let lowRes := res c * resRatio in
  qmin <- py_div (minPos c) lowRes ;;
  let lowMinPos := qmin * lowRes in
  qmax <- py_div (maxPos c) lowRes ;;
  let lowMaxPos := qmax * lowRes in
  Ok (mkChrom lowMinPos lowMaxPos lowRes (name c) (size c)).

(** Rounding a quotient up, as the specification's [ceil(a/b)]. *)
Definition ceil_div (a b : Z) : Z := - ((- a) / b).

(** ** Point and Structure

    A slot of the points array holds a Point or the marker [0] (here [None]).
    Points are modelled by their values: the slots of an array hold distinct
    objects, and no function below reads a Point through one structure after
    writing it through another.  The structures that [make_compatible]
    rewrites in place are objects of a store. *)

Section Model.
Context `{Floats float}.

Definition position : Type := float * float * float.

Record Point : Type := mkPoint {
  pos : position;              (* 3D coordinates *)
  num : Z;                     (* locus (not necessarily sequential) *)
  pchrom : ChromParameters;    (* chromosome parameters *)
  index : Z                    (* sequential *)
}.

#[warnings="-register-all"]
Inductive Structure : Type := mkStructure {
  points : list (option Point);
  structures : list Structure;
  chrom : ChromParameters;     (* chromosome parameters *)
  offset : Z                   (* indexing offset (for substructures only) *)
}.

Definition set_points (s : Structure) (pts : list (option Point)) : Structure :=
  mkStructure pts (structures s) (chrom s) (offset s).

Definition set_index (p : Point) (i : Z) : Point :=
  mkPoint (pos p) (num p) (pchrom p) i.

(** [self.points[np.where(self.points != 0)[0]]] *)
Definition getPoints (s : Structure) : list Point := omap id (points s).

Definition getPointNums (s : Structure) : list Z := num <$> getPoints s.

Definition getCoords (s : Structure) : list position := pos <$> getPoints s.

(** Non-null genomic coordinates of structure. *)
Definition getGenCoords (s : Structure) : list Z :=
  (fun point_num => minPos (chrom s) + res (chrom s) * point_num) <$> getPointNums s.

(** Converts genomic coordinate into index. *)
Definition getIndex (s : Structure) (genCoord : Z) : result (option Z) :=
  pointNum <- getPointNum (chrom s) genCoord ;;
  match pointNum with
  | None => Ok None
  | Some pointNum =>
      let pointNum := pointNum - offset s in
      if (0 <=? pointNum) && (pointNum <? Z.of_nat (length (points s))) then
        match points s !! Z.to_nat pointNum with
        | Some (Some point) => Ok (Some (index point))
        | _ => Ok None
        end
      else Ok None
  end.

(** [max(l)] *)
Definition py_max (l : list Z) : result Z :=
  match l with
  | [] => Raise ValueError
  | x :: l' => Ok (foldl Z.max x l')
  end.

Fixpoint map_r {A B : Type} (f : A -> result B) (l : list A) : result (list B) :=
  match l with
  | [] => Ok []
  | x :: l' => y <- f x ;; ys <- map_r f l' ;; Ok (y :: ys)
  end.

Definition setstructures (self : Structure) (strs : list Structure) : result Structure :=
  maxes <- map_r (fun structure => py_max (getPointNums structure)) strs ;;
  m <- py_max maxes ;;
  zeros <- np_zeros None (m + 1) ;;
  pts <- for_each (fun pts structure =>
           for_each (fun pts point =>
             match point with
             | None => Ok pts
             | Some p => py_set pts (num p) (Some p)
             end) (points structure) pts) strs zeros ;;
  Ok (mkStructure pts strs (chrom self) (offset self)).

(** [Structure(points, structures, chrom, offset)] *)
Definition newStructure (pts : list (option Point)) (strs : list Structure)
    (c : ChromParameters) (off : Z) : result Structure :=
  match strs with
  | [] => Ok (mkStructure pts [] c off)
  | _ => setstructures (mkStructure pts [] c off) strs
  end.

(** [self.points[point_num - self.offset].index = i]: the marker [0] has no
    attribute to set. *)
Definition indexPoints_body (off : Z) (pts : list (option Point)) (ip : Z * Z)
  : result (list (option Point)) :=
  let '(i, point_num) := ip in
  slot <- py_get pts (point_num - off) ;;
  match slot with
  | None => Raise AttributeError
  | Some p => py_set pts (point_num - off) (Some (set_index p i))
  end.

Definition indexPoints_loop (off : Z) (nums : list Z) (pts : list (option Point))
  : result (list (option Point)) :=
  for_each (indexPoints_body off) (enumerate nums) pts.

Definition indexPoints (s : Structure) : result Structure :=
  pts <- indexPoints_loop (offset s) (getPointNums s) (points s) ;;
  Ok (set_points s pts).

Definition set_pos (p : Point) (coord : position) : Point :=
  mkPoint coord (num p) (pchrom p) (index p).

(** [self.points[point_num - self.offset].pos = coord] *)
Definition setCoords_body (off : Z) (pts : list (option Point)) (cn : position * Z)
  : result (list (option Point)) :=
  let '(coord, point_num) := cn in
  slot <- py_get pts (point_num - off) ;;
  match slot with
  | None => Raise AttributeError
  | Some p => py_set pts (point_num - off) (Some (set_pos p coord))
  end.

(** [zip] stops at the shorter of the coordinates and the point numbers. *)
Definition setCoords (s : Structure) (coords : list position) : result Structure :=
  pts <- for_each (setCoords_body (offset s)) (zip coords (getPointNums s)) (points s) ;;
  Ok (set_points s pts).

(** ** Contact lists

    A record of an intrachromosomal BED file, split into fields: the fields
    0, 1, 2, 4 and 6 of the line, the numeric ones converted. *)
Record Contact : Type := mkContact {
  field0 : string;
  field1 : Z;
  field2 : Z;
  field4 : Z;
  field6 : float
}.

(** [sys.float_info.max], an integer. *)
Definition float_info_max : Z := 2 ^ 1024 - 2 ^ 971.

(** [int(np.floor(float(a)/b))] and [int(np.ceil(float(a)/b))], the division
    taken exactly (as it is for operands below 2^53). *)
Definition floor_fdiv (a b : Z) : result Z := py_div a b.
Definition ceil_fdiv (a b : Z) : result Z :=
  if b =? 0 then Raise ZeroDivisionError else Ok (ceil_div a b).

(** The integers below 2^53 in absolute value: [float()] converts them
    exactly, and the quotient of two of them, rounded to a float, has the
    floor and the ceiling of the exact quotient (the rounding error is below
    the distance [1/|b|] of a quotient that is not an integer from the next
    integer).  Beyond them [float(a)/b] is rounded, and [float()] raises
    OverflowError from 2^1024 on. *)
Definition exact_float (z : Z) : Prop := Z.abs z < 2 ^ 53.

(** The running minimum and maximum of [chromFromBed]. *)
Definition track (mn_mx : Z * Z) (p : Z) : Z * Z :=
  let '(mn, mx) := mn_mx in
  if p <? mn then (p, mx)
  else if p >? mx then (mn, p)
  else (mn, mx).

Record scan_state : Type := mkScan {
  scan_bounds : Z * Z;
  scan_first : option (string * Z);   (* name and res, bound at i == 0 *)
  scan_i : option Z                   (* the loop variable i *)
}.

Definition chromFromBed_step (st : scan_state) (il : Z * Contact) : scan_state :=
  let '(i, line) := il in
  let pos1 := field1 line in
  let pos2 := field4 line in
  let b := track (track (scan_bounds st) pos1) pos2 in
  let first := if i =? 0 then Some (field0 line, field2 line - pos1) else scan_first st in
  mkScan b first (Some i).

(** Initialize ChromParams from intrachromosomal file in BED format. *)
Definition chromFromBed (path : list Contact) : result ChromParameters :=
  let st := foldl chromFromBed_step (mkScan (float_info_max, 0) None None) (enumerate path) in
  match scan_first st, scan_i st with
  | Some (name, res), Some i =>
      let '(mn, mx) := scan_bounds st in
      qmin <- floor_fdiv mn res ;;
      qmax <- ceil_fdiv mx res ;;
      Ok (mkChrom (qmin * res) (qmax * res) res name (Some i))
  | _, _ => Raise UnboundLocalError
  end.

(** The files whose positions and whose resolution, the difference of the
    fields 2 and 1 of the first record, are exact as floats: on them the
    divisions of [chromFromBed] are those of [floor_fdiv] and [ceil_fdiv]. *)
Definition exact_file (path : list Contact) : Prop :=
  (forall line, line ∈ path ->
     exact_float (field1 line) /\ exact_float (field4 line)) /\
  (forall r, head path = Some r -> exact_float (field2 r - field1 r)).

(** [basicParamsFromBed]: the loop binds [i] at every line and [res] at the
    first one, the only line that is split, of which the fields 1 and 2 are
    read.  The result is the pair [(i, res)]. *)
Definition basicParamsFromBed_step (st : option Z * option Z) (il : Z * Contact)
  : option Z * option Z :=
  let '(i, line) := il in
  (Some i, if i =? 0 then Some (field2 line - field1 line) else st.2).

Definition basicParamsFromBed (path : list Contact) : result (Z * Z) :=
  match foldl basicParamsFromBed_step (None, None) (enumerate path) with
  | (Some i, Some res) => Ok (i, res)
  | _ => Raise UnboundLocalError
  end.

(** The scan of [structureFromBed] stores fresh points that differ in their
    number only, which is the answer of [getPointNum]: an integer or None. *)
Definition structureFromBed_step (c : ChromParameters) (start end_ : Z)
    (slots : list (option (option Z))) (line : Contact)
  : result (list (option (option Z))) :=
  let pos1 := field1 line in
  let pos2 := field4 line in
  if (start <=? pos1) && (pos1 <=? end_) && (start <=? pos2) && (pos2 <=? end_) then
    pointNum1 <- getPointNum c pos1 ;;
    pointNum2 <- getPointNum c pos2 ;;
    if bool_decide (pointNum1 <> pointNum2) then
      i1 <- py_div (pos1 - start) (res c) ;;
      slots <- py_set slots i1 (Some pointNum1) ;;
      i2 <- py_div (pos2 - start) (res c) ;;
      py_set slots i2 (Some pointNum2)
    else Ok slots
  else Ok slots.

Definition fresh_point (c : ChromParameters) (n : Z) : Point :=
  mkPoint (fzero, fzero, fzero) n c 0.

(** Initializes structure from intrachromosomal BED file.  When a stored
    point has the number None, [indexPoints] raises TypeError at that point
    number, unless it raised before. *)
Definition structureFromBed (path : list Contact) (chrom : option ChromParameters)
    (start end_ : option Z) (off : Z) : result Structure :=
  c <- match chrom with None => chromFromBed path | Some c => Ok c end ;;
  let start := default (minPos c) start in
  let end_ := default (maxPos c) end_ in
  q <- py_div (end_ - start) (res c) ;;
  zeros <- np_zeros (None : option (option Z)) (q + 1) ;;
  slots <- for_each (structureFromBed_step c start end_) path zeros ;;
  let pts : list (option Point) :=
    (fun slot : option (option Z) =>
       (fun n : option Z => fresh_point c (default 0 n)) <$> slot) <$> slots in
  let nums : list (option Z) := omap id slots in
  match list_find (fun n : option Z => n = None) nums with
  | None => indexPoints (mkStructure pts [] c off)
  | Some (k, _) =>
      indexPoints_loop off (omap id (take k nums)) pts ;;; Raise TypeError
  end.

(** The record [line] marks the slot [i] of the scan over the range from
    [start] to [end_]: both positions are in the range, their point numbers
    differ, and one of the positions falls into the slot. *)
Definition marks (c : ChromParameters) (start end_ : Z) (line : Contact) (i : nat)
  : Prop :=
  (start <= field1 line <= end_) /\ (start <= field4 line <= end_) /\
  ((field1 line - minPos c) / res c <> (field4 line - minPos c) / res c) /\
  ((field1 line - start) / res c = Z.of_nat i \/
   (field4 line - start) / res c = Z.of_nat i).

(** ** Contact matrices *)

(** [mat[row, col] += w] *)
Definition mat_add (mat : matrix float) (row col : Z) (w : float) : result (matrix float) :=
  r <- py_idx (length mat) row ;;
  match mat !! r with
  | None => Raise IndexError
  | Some rowv =>
      c <- py_idx (length rowv) col ;;
      match rowv !! c with
      | None => Raise IndexError
      | Some x => Ok (<[r := <[c := fadd x w]> rowv]> mat)
      end
  end.

(** Modelled from the spec: [array_tools.makeSymmetric], which is not among
    the sources.  The lower triangle (row >= col) is mirrored across the
    diagonal to populate the upper triangle. *)
Definition makeSymmetric (mat : matrix float) : matrix float :=
  imap (fun i row =>
    imap (fun j x =>
      if (i <? j)%nat then default x (mat !! j ≫= (.!! i)) else x) row) mat.

(** [sum(row)] *)
Definition row_sum (row : list float) : float := foldl fadd fzero row.

(** The loop over the lines of the file. *)
Definition matFromBed_step (structure : Structure) (mat : matrix float) (line : Contact)
  : result (matrix float) :=
  let loc1 := field1 line in
  let loc2 := field4 line in
  index1 <- getIndex structure loc1 ;;
  index2 <- getIndex structure loc2 ;;
  match index1, index2 with
  | Some index1, Some index2 =>
      let '(row, col) :=
        if index1 >? index2 then (index1, index2) else (index2, index1) in
      mat_add mat row col (field6 line)
  | _, _ => Ok mat
  end.

(** [np.where(rowsums == 0)[0]] *)
Definition zero_rows (rowsums : list float) : list nat :=
  fst <$> filter (fun ix => feq0 ix.2 = true) (imap pair rowsums).

(** The matrix before the validation of its rows. *)
Definition contact_matrix (path : list Contact) (structure : Structure) : result (matrix float) :=
  let pointNums := getPointNums structure in
  let numpoints := length pointNums in
  let mat := replicate numpoints (replicate numpoints fzero) in
  maxPointNum <- py_max pointNums ;;
  if negb (maxPointNum - offset structure <? Z.of_nat (length (points structure)))
  then Raise AssertionError
  else
    mat <- for_each (matFromBed_step structure) path mat ;;
    Ok (makeSymmetric mat).

(** [structure] when it is given, else [structureFromBed(path, None, None)]. *)
Definition structure_or_default (path : list Contact) (structure : option Structure)
  : result Structure :=
  match structure with
  | None => structureFromBed path None None None 0
  | Some s => Ok s
  end.

(** Converts BED file to matrix. Only includes loci in structure. *)
Definition matFromBed (path : list Contact) (structure : option Structure) : result (matrix float) :=
  structure <- structure_or_default path structure ;;
  mat <- contact_matrix path structure ;;
  let rowsums := row_sum <$> mat in
  match zero_rows rowsums with
  | [] => Ok mat
  | zs => Raise (SystemExit (omap (fun i => getGenCoords structure !! i) zs) 1)
  end.

(** The entry [mat[i, j]], for subscripts within the matrix. *)
Definition entry (mat : matrix float) (i j : nat) : option float :=
  mat !! i ≫= (.!! j).

(** The cell that a line of the file adds its weight to, in a matrix of [n]
    rows and columns: the larger index is the row. *)
Definition cell_of (structure : Structure) (n : nat) (line : Contact) : option (nat * nat) :=
  match getIndex structure (field1 line), getIndex structure (field4 line) with
  | Ok (Some index1), Ok (Some index2) =>
      let '(row, col) :=
        if index1 >? index2 then (index1, index2) else (index2, index1) in
      match py_idx n row, py_idx n col with
      | Ok r, Ok c => Some (r, c)
      | _, _ => None
      end
  | _, _ => None
  end.

(** The weights of the lines that go to the cell [(r, c)], in file order. *)
Definition weights_at (structure : Structure) (n : nat) (path : list Contact)
    (r c : nat) : list float :=
  field6 <$> filter (fun line => cell_of structure n line = Some (r, c)) path.

(** The record [line] joins the points of the indices [i] and [j], in
    either order. *)
Definition joins (structure : Structure) (i j : Z) (line : Contact) : bool :=
  match getIndex structure (field1 line), getIndex structure (field4 line) with
  | Ok (Some index1), Ok (Some index2) =>
      ((index1 =? i) && (index2 =? j)) || ((index1 =? j) && (index2 =? i))
  | _, _ => false
  end.

(** A matrix of [k] rows and [k] columns. *)
Definition square (k : nat) (mat : matrix float) : Prop :=
  length mat = k /\ Forall (fun row => length row = k) mat.

(** ** Resolution reduction *)

(** [np.mean(np.array([point.pos for point in pointsToMerge]), axis=0)] *)
Definition mean_pos (l : list position) : position :=
  (fmean ((fun p => p.1.1) <$> l), fmean ((fun p => p.1.2) <$> l), fmean (snd <$> l)).

(** The first loop of [highToLow]: every point joins the bucket of its
    local number divided by the ratio. *)
Definition bucket_step (off resRatio : Z) (allPointsToMerge : list (list Point))
    (highPoint : Point) : result (list (list Point)) :=
  let highNum := num highPoint - off in
  lowNum <- py_div highNum resRatio ;;
  bucket <- py_get allPointsToMerge lowNum ;;
  py_set allPointsToMerge lowNum (bucket ++ [highPoint]).

(** The second loop: [pts_index] is the array under construction and the
    running [index]. *)
Definition merge_step (lowChrom : ChromParameters) (lowOffset : Z)
    (pts_index : list (option Point) * Z) (ib : Z * list Point)
  : result (list (option Point) * Z) :=
  let '(pts, index) := pts_index in
  let '(i, pointsToMerge) := ib in
  if (0 <? Z.of_nat (length pointsToMerge)) then
    let meanCoord := mean_pos (pos <$> pointsToMerge) in
    pts <- py_set pts i (Some (mkPoint meanCoord (i + lowOffset) lowChrom index)) ;;
    Ok (pts, index + 1)
  else Ok (pts, index).

(** Reduces resolution of structure. *)
Definition highToLow (highstructure : Structure) (resRatio : Z) : result Structure :=
  lowChrom <- reduceRes (chrom highstructure) resRatio ;;
  q <- py_div (Z.of_nat (length (points highstructure))) resRatio ;;
  let low_n := q + 1 in
  zeros <- np_zeros (None : option Point) low_n ;;
  lowOffset <- py_div (offset highstructure) resRatio ;;
  let lowstructure := mkStructure zeros [] lowChrom lowOffset in
  let allPointsToMerge : list (list Point) := replicate (Z.to_nat low_n) [] in
  allPointsToMerge <-
    for_each (bucket_step (offset highstructure) resRatio)
      (getPoints highstructure) allPointsToMerge ;;
  pts_index <-
    for_each (merge_step lowChrom (offset lowstructure))
      (enumerate allPointsToMerge) (points lowstructure, offset lowstructure) ;;
  Ok (set_points lowstructure pts_index.1).

(** The high-resolution points that go to the low-resolution slot [i]. *)
Definition bucket_of (highstructure : Structure) (resRatio : Z) (i : nat) : list Point :=
  filter (fun p => (num p - offset highstructure) / resRatio = Z.of_nat i)
    (getPoints highstructure).

(** The point that the second loop stores for a non-empty bucket. *)
Definition merged (c : ChromParameters) (lo : Z) (i : nat) (idx : Z)
    (b : list Point) : Point :=
  mkPoint (mean_pos (pos <$> b)) (Z.of_nat i + lo) c idx.

(** The number of non-empty lists among the first [i]. *)
Definition nonempty_before {A : Type} (l : list (list A)) (i : nat) : nat :=
  length (filter (fun b => b <> []) (take i l)).

(** Slot [i] either is empty or holds a Point whose [num == i + offset]. *)
Definition slot_inv (s : Structure) : Prop :=
  forall i p, points s !! i = Some (Some p) -> num p = Z.of_nat i + offset s.

(** The slots of the scan of [structureFromBed]: slot [i] is empty or holds
    the number [i + off]. *)
Definition scan_inv (n : nat) (off : Z) (slots : list (option (option Z))) : Prop :=
  length slots = n /\
  forall i o, slots !! i = Some (Some o) -> o = Some (Z.of_nat i + off).

(** The array of [setstructures]: slot [i] is empty or holds point [i]. *)
Definition by_num (n : nat) (pts : list (option Point)) : Prop :=
  length pts = n /\ forall i p, pts !! i = Some (Some p) -> num p = Z.of_nat i.

(** The points array with the indices of its points counted from [k], in
    slot order. *)
Fixpoint reindex (pts : list (option Point)) (k : Z) : list (option Point) :=
  match pts with
  | [] => []
  | None :: pts' => None :: reindex pts' k
  | Some p :: pts' => Some (set_index p k) :: reindex pts' (k + 1)
  end.

(** The points array with the positions of its points replaced by the
    coordinates given, in slot order, as far as the coordinates go. *)
Fixpoint repos (pts : list (option Point)) (coords : list position)
  : list (option Point) :=
  match pts with
  | [] => []
  | None :: pts' => None :: repos pts' coords
  | Some p :: pts' =>
      match coords with
      | [] => pts
      | coord :: coords' => Some (set_pos p coord) :: repos pts' coords'
      end
  end.

(** A slot with the index of its point erased, and with its position
    erased: what is left is what [indexPoints] and [setCoords] keep. *)
Definition without_index (slot : option Point) : option Point :=
  (fun p => set_index p 0) <$> slot.

Definition without_pos (slot : option Point) : option Point :=
  (fun p => set_pos p (fzero, fzero, fzero)) <$> slot.

(** ** The structure file format *)

(** [str(n)] and [int(s)] on integers: signed decimal numerals. *)
Definition str_int (z : Z) : string := NilZero.string_of_int (Z.to_int z).

Definition py_int (s : string) : result Z :=
  match s with
  | String "+"%char s' =>
      match NilZero.uint_of_string s' with
      | Some u => Ok (Z.of_uint u)
      | None => Raise ValueError
      end
  | _ =>
      match NilZero.int_of_string s with
      | Some d => Ok (Z.of_int d)
      | None => Raise ValueError
      end
  end.

Definition py_float (s : string) : result float :=
  match fparse s with
  | Some x => Ok x
  | None => Raise ValueError
  end.

Definition nl : string := String "010"%char "".
Definition tab : string := String "009"%char "".

(** [sep.join(l)] *)
Fixpoint join (sep : string) (l : list string) : string :=
  match l with
  | [] => ""
  | [x] => x
  | x :: l' => x +:+ sep +:+ join sep l'
  end.

(** [s.lstrip()], [s.rstrip()], [s.strip()] *)
Fixpoint lstrip (s : string) : string :=
  match s with
  | "" => ""
  | String a s' => if Ascii.is_space a then lstrip s' else s
  end.

Fixpoint rstrip (s : string) : string :=
  match s with
  | "" => ""
  | String a s' =>
      match rstrip s' with
      | "" => if Ascii.is_space a then "" else String a ""
      | r => String a r
      end
  end.

Definition strip (s : string) : string := rstrip (lstrip s).

(** [s.split()]: [split_aux s] is the word that begins [s], possibly empty,
    and the words after it. *)
Definition cons_word (w : string) (ws : list string) : list string :=
  match w with
  | "" => ws
  | _ => w :: ws
  end.

Fixpoint split_aux (s : string) : string * list string :=
  match s with
  | "" => ("", [])
  | String a s' =>
      let '(w, ws) := split_aux s' in
      if Ascii.is_space a then ("", cons_word w ws) else (String a w, ws)
  end.

Definition split (s : string) : list string :=
  let '(w, ws) := split_aux s in cons_word w ws.

(** The lines of a file, as successive calls of [readline()] return them,
    each with its newline. *)
Fixpoint lines (s : string) : list string :=
  match s with
  | "" => []
  | String a s' =>
      if Ascii.eqb a "010"%char then String a "" :: lines s'
      else match lines s' with
           | [] => [String a ""]
           | l :: ls => String a l :: ls
           end
  end.

(** [readline()] at the end of the file returns the empty string. *)
Definition readline (ls : list string) : string * list string :=
  match ls with
  | [] => ("", [])
  | l :: ls' => (l, ls')
  end.

(** Strings without white space, and the words that [split] returns. *)
Fixpoint no_space (s : string) : bool :=
  match s with
  | "" => true
  | String a s' => negb (Ascii.is_space a) && no_space s'
  end.

Definition token (s : string) : Prop := s <> "" /\ no_space s = true.

Fixpoint no_newline (s : string) : bool :=
  match s with
  | "" => true
  | String a s' => negb (Ascii.eqb a "010"%char) && no_newline s'
  end.

Definition write_line (num : Z) (point : option Point) : string :=
  match point with
  | None => join tab [str_int num; "nan"; "nan"; "nan"] +:+ nl
  | Some p =>
      let '(x, y, z) := pos p in
      join tab [str_int num; fstr x; fstr y; fstr z] +:+ nl
  end.

Fixpoint write_lines (num : Z) (pts : list (option Point)) : string :=
  match pts with
  | [] => ""
  | point :: pts' => write_line num point +:+ write_lines (num + 1) pts'
  end.

(** [Structure.write]: the contents of the file written. *)
Definition write (s : Structure) : string :=
  name (chrom s) +:+ nl +:+
  str_int (res (chrom s)) +:+ nl +:+
  str_int (minPos (chrom s)) +:+ nl +:+
  write_lines (offset s) (points s).

(** A data line read: the point number, and the position and index of the
    point unless the line says nan. *)
Definition row : Type := Z * option (position * Z).

(** The loop of [structure_from_file], over the lines that remain; [index]
    is the running index. *)
Fixpoint read_rows (ls : list string) (index : Z) : result (list row) :=
  match ls with
  | [] => Ok []
  | l :: ls' =>
      let line := split (strip l) in
      match line with
      | [] => Ok []
      | _ =>
          num <- (tok <- py_get line 0 ;; py_int tok) ;;
          t1 <- py_get line 1 ;;
          if bool_decide (t1 = "nan") then
            rest <- read_rows ls' index ;; Ok ((num, None) :: rest)
          else
            x <- py_float t1 ;;
            y <- (tok <- py_get line 2 ;; py_float tok) ;;
            z <- (tok <- py_get line 3 ;; py_float tok) ;;
            rest <- read_rows ls' (index + 1) ;;
            Ok ((num, Some ((x, y, z), index)) :: rest)
      end
  end.

Definition row_point (c : ChromParameters) (r : row) : option Point :=
  (fun pi : position * Z => mkPoint pi.1 r.1 c pi.2) <$> r.2.

(** The chromosome parameters are one object, which every point refers to:
    the points see the maxPos that is assigned after the loop.  The variable
    [num] is unbound when the file has no data line. *)
Definition structure_from_file (path : string) : result Structure :=
  let '(l, infile) := readline (lines path) in
  let name := strip l in
  let '(l, infile) := readline infile in
  res <- py_int (strip l) ;;
  let '(l, infile) := readline infile in
  minPos <- py_int (strip l) ;;
  rows <- read_rows infile 0 ;;
  match last rows with
  | None => Raise UnboundLocalError
  | Some (num, _) =>
      let chrom := mkChrom minPos (minPos + res * num) res name None in
      Ok (mkStructure (row_point chrom <$> rows) [] chrom 0)
  end.

(** The float that [float(str(x))] gives, when [str(x)] parses. *)
Definition reread (x : float) : float := default x (fparse (fstr x)).

Definition reread_pos (xyz : position) : position :=
  (reread xyz.1.1, reread xyz.1.2, reread xyz.2).

(** The rows that the lines written for the slots [pts] hold, the first
    line being numbered [num] and the first point indexed [index]. *)
Fixpoint rows_of (num index : Z) (pts : list (option Point)) : list row :=
  match pts with
  | [] => []
  | None :: pts' => (num, None) :: rows_of (num + 1) index pts'
  | Some p :: pts' =>
      (num, Some (reread_pos (pos p), index)) :: rows_of (num + 1) (index + 1) pts'
  end.

(** Closeness of positions, for a closeness of floats. *)
Definition close_pos (approx : float -> float -> Prop) (a b : position) : Prop :=
  approx a.1.1 b.1.1 /\ approx a.1.2 b.1.2 /\ approx a.2 b.2.

(** ** Consensus alignment *)

(** [gen_coord_dict], filled with the coordinates of one structure. *)
Definition count_coord (d : gmap Z nat) (gen_coord : Z) : gmap Z nat :=
  match d !! gen_coord with
  | Some k => <[gen_coord := S k]> d
  | None => <[gen_coord := 1%nat]> d
  end.

Definition gen_coord_dict (strs : list Structure) : gmap Z nat :=
  foldl (fun d structure => foldl count_coord d (getGenCoords structure)) ∅ strs.

(** The coordinates counted once per structure, ascending. *)
Definition consensus_of (strs : list Structure) : list Z :=
  let d := gen_coord_dict strs in
  let n := length strs in
  merge_sort Z.le (filter (fun gen_coord => d !! gen_coord = Some n) (map_to_list d).*1).

(** [structure.points[old_point_num].pos]: neither the marker [0] nor the
    array that the subscript None designates has this attribute. *)
Definition pos_at (pts : list (option Point)) (i : option Z) : result position :=
  match i with
  | None => Raise AttributeError
  | Some i =>
      point <- py_get pts i ;;
      match point with
      | None => Raise AttributeError
      | Some p => Ok (pos p)
      end
  end.

(** One consensus coordinate.  [getPointNum] answers None for [new_chrom]
    only when the resolution is negative; the source then stores a Point
    whose number is None in every slot.  Points of the model have integer
    numbers, and the model raises TypeError, as the first use of such a
    number does. *)
Definition carry_step (structure : Structure) (new_chrom : ChromParameters)
    (new_points : list (option Point)) (ig : Z * Z) : result (list (option Point)) :=
  let '(i, gen_coord) := ig in
  old_point_num <- getPointNum (chrom structure) gen_coord ;;
  new_point_num <- getPointNum new_chrom gen_coord ;;
  pos <- pos_at (points structure) old_point_num ;;
  match new_point_num with
  | Some n => py_set new_points n (Some (mkPoint pos n new_chrom i))
  | None => Raise TypeError
  end.

(** The body of the last loop of [make_compatible], on one structure. *)
Definition rewrite_structure (consensus : list Z) (structure : Structure)
  : result Structure :=
  first <- py_get consensus 0 ;;
  last <- py_get consensus (-1) ;;
  let c := chrom structure in
  let new_chrom := mkChrom first (last + res c) (res c) (name c) (size c) in
  len <- getLength new_chrom ;;
  new_points <- np_zeros (None : option Point) len ;;
  new_points <- for_each (carry_step structure new_chrom) (enumerate consensus) new_points ;;
  Ok (mkStructure new_points (structures structure) new_chrom (offset structure)).

(** Enforce that points be shared by all structures.  The structures are
    objects of the store [heap], rewritten in place; the list [structures]
    holds their addresses (addresses of the store, by construction), and may
    hold an address twice. *)
Definition make_compatible (heap : list Structure) (structures : list nat)
  : result (list Structure) :=
  let strs := omap (fun a => heap !! a) structures in
  let consensus := consensus_of strs in
  for_each (fun heap a =>
    match heap !! a with
    | Some structure =>
        structure' <- rewrite_structure consensus structure ;;
        Ok (<[a := structure']> heap)
    | None => Ok heap
    end) structures heap.


(** The genomic coordinate of a point of a structure. *)
Definition coord_of (s : Structure) (p : Point) : Z :=
  minPos (chrom s) + res (chrom s) * num p.





End Model.

(** ** Floats with integer values

    An instance of [Floats] for running the model on inputs whose floats are
    small integers, on which addition and comparison with zero are exact.
    The mean is that of the integers, rounded down. *)
Definition int_floats : Floats Z := {|
  fzero := 0;
  fadd := Z.add;
  feq0 := fun x => x =? 0;
  fmean := fun l => foldr Z.add 0 l / Z.of_nat (length l);
  fstr := str_int;
  fparse := fun s => match py_int s with Ok z => Some z | Raise _ => None end
|}.

(** ** Floats with integer values, and NaN

    [None] is NaN: it is printed "nan", and an operation on it gives it. *)
Definition nan_floats : Floats (option Z) := {|
  fzero := Some 0;
  fadd := fun x y => a ← x; b ← y; Some (a + b);
  feq0 := fun x => bool_decide (x = Some 0);
  fmean := fun l =>
    foldr (fun x acc => a ← x; b ← acc; Some (a + b)) (Some 0) l
      ≫= fun t => Some (t / Z.of_nat (length l));
  fstr := fun x => match x with Some z => str_int z | None => "nan" end;
  fparse := fun s =>
    if bool_decide (s = "nan") then Some None
    else match py_int s with Ok z => Some (Some z) | Raise _ => None end
|}.

(** ** Sample inputs *)

Module Sample.

(** Lines [chr1 1000 2000 . p2 . w] of a contact file at resolution 1000. *)
Definition contact (p2 w : Z) : @Contact Z :=
  @mkContact Z "chr1" 1000 2000 p2 w.

Definition chr1 : ChromParameters := mkChrom 1000 5000 1000 "chr1" (Some 1).

Definition point (n i : Z) : @Point Z :=
  @mkPoint Z (0, 0, 0) n chr1 i.

(** The loci 1000, 3000 and 5000 of [chr1]. *)
Definition three_points : @Structure Z :=
  @mkStructure Z
    [Some (point 0 0); None; Some (point 2 1); None; Some (point 4 2)] [] chr1 0.

(** The loci 3000, 4000 and 6000 of a longer chromosome, as a substructure
    whose slot 0 is point number 2. *)
Definition long_chr1 : ChromParameters := mkChrom 1000 9000 1000 "chr1" (Some 1).

Definition shifted : @Structure Z :=
  @mkStructure Z
    [Some (@mkPoint Z (0, 0, 0) 2 long_chr1 0);
     Some (@mkPoint Z (0, 0, 0) 3 long_chr1 1); None;
     Some (@mkPoint Z (0, 0, 0) 5 long_chr1 2)] [] long_chr1 2.

(** A structure without slots. *)
Definition no_slots : @Structure Z := @mkStructure Z [] [] chr1 0.

(** The chromosome name with a space after it. *)
Definition spaced_name : @Structure Z :=
  @mkStructure Z [Some (point 0 0)] []
    (mkChrom 1000 5000 1000 "chr1 " (Some 1)) 0.

(** A point whose first coordinate is NaN. *)
Definition nan_point : @Structure (option Z) :=
  @mkStructure (option Z)
    [Some (@mkPoint (option Z) (None, Some 1, Some 2) 0 chr1 0)] [] chr1 0.

(** A parent structure with the offset 1. *)
Definition parent : @Structure Z := @mkStructure Z [] [] chr1 1.

(** The loci 1000, 2000, 3000 and 5000 of [chr1], at four positions. *)
Definition four_points : @Structure Z :=
  @mkStructure Z
    [Some (@mkPoint Z (1, 1, 1) 0 chr1 0); Some (@mkPoint Z (2, 2, 2) 1 chr1 1);
     Some (@mkPoint Z (3, 3, 3) 2 chr1 2); None;
     Some (@mkPoint Z (5, 5, 5) 4 chr1 3)] [] chr1 0.

(** The locus 2000 of [chr1] alone. *)
Definition one_point : @Structure Z :=
  @mkStructure Z [None; Some (point 1 0); None; None; None] [] chr1 0.

(** The loci 2000 and 3000 of [chr1], as a substructure of offset 1. *)
Definition sub : @Structure Z :=
  @mkStructure Z
    [Some (@mkPoint Z (1, 1, 1) 1 chr1 0); Some (@mkPoint Z (2, 2, 2) 2 chr1 1)]
    [] chr1 1.

(** The line [chr1 p1 p1+1000 . p2 . w] of a contact file at resolution
    1000. *)
Definition contact_from (p1 p2 w : Z) : @Contact Z :=
  @mkContact Z "chr1" p1 (p1 + 1000) p2 w.

(** The loci 4000, 5000 and 7000 of a chromosome that begins at 2000, as a
    substructure whose slot 0 is point number 2. *)
Definition chr1_from_2000 : ChromParameters :=
  mkChrom 2000 10000 1000 "chr1" (Some 1).

Definition aligned : @Structure Z :=
  @mkStructure Z
    [Some (@mkPoint Z (0, 0, 0) 2 chr1_from_2000 0);
     Some (@mkPoint Z (0, 0, 0) 3 chr1_from_2000 1); None;
     Some (@mkPoint Z (0, 0, 0) 5 chr1_from_2000 2)] [] chr1_from_2000 2.

End Sample.

(* ================================================================== *)
(** * Properties *)

Section ChromParametersFacts.

Lemma py_div_pos a b : 0 < b -> py_div a b = Ok (a / b).
Proof.
  intros Hb. unfold py_div.
  destruct (Z.eqb_spec b 0) as [->|_]; [lia | reflexivity].
Qed.

Lemma getPointNum_outside c g :
  g < minPos c \/ maxPos c < g -> getPointNum c g = Ok None.
Proof.
  intros Hout. unfold getPointNum.
  destruct (Z.ltb_spec g (minPos c)); [reflexivity|].
  destruct (Z.gtb_spec g (maxPos c)); [reflexivity|]. lia.
Qed.

Lemma getPointNum_inside c g :
  0 < res c -> minPos c <= g <= maxPos c ->
  getPointNum c g = Ok (Some ((g - minPos c) / res c)).
Proof.
  intros Hres [Hlo Hhi]. unfold getPointNum.
  destruct (Z.ltb_spec g (minPos c)); [lia|].
  destruct (Z.gtb_spec g (maxPos c)); [lia|].
  cbn. rewrite py_div_pos by assumption. reflexivity.
Qed.

End ChromParametersFacts.

(** C1: with [res > 0] and [minPos <= maxPos], [getPointNum] answers None
    outside [[minPos, maxPos]]; inside, it answers the floor [n] of
    [(genCoord - minPos) / res], that is, the integer with
    [n * res <= genCoord - minPos < (n + 1) * res]; on that range it is
    monotonic non-decreasing, and it sends [minPos] to 0. *)
Theorem getPointNum_spec (c : ChromParameters) :
  0 < res c -> minPos c <= maxPos c ->
  (forall g, g < minPos c \/ maxPos c < g -> getPointNum c g = Ok None) /\
  (forall g, minPos c <= g <= maxPos c ->
     exists n, getPointNum c g = Ok (Some n) /\
       n = (g - minPos c) / res c /\
       n * res c <= g - minPos c < (n + 1) * res c) /\
  (forall g1 g2 n1 n2, minPos c <= g1 -> g1 <= g2 -> g2 <= maxPos c ->
     getPointNum c g1 = Ok (Some n1) -> getPointNum c g2 = Ok (Some n2) ->
     n1 <= n2) /\
  getPointNum c (minPos c) = Ok (Some 0).
Proof.
  intros Hres Hrange. split; [|split; [|split]].
  - intros g Hg. by apply getPointNum_outside.
  - intros g Hg. exists ((g - minPos c) / res c).
    split; [by apply getPointNum_inside|]. split; [reflexivity|].
    pose proof (Z.mod_pos_bound (g - minPos c) (res c) Hres) as Hm.
    pose proof (Z.div_mod (g - minPos c) (res c)) as Hd. lia.
  - intros g1 g2 n1 n2 H1 H12 H2 E1 E2.
    rewrite getPointNum_inside in E1 by lia.
    rewrite getPointNum_inside in E2 by lia.
    inversion E1; inversion E2; subst.
    apply Z.div_le_mono; lia.
  - rewrite getPointNum_inside by lia.
    rewrite Z.sub_diag, Z.div_0_l by lia. reflexivity.
Qed.

Lemma getPointNum_spec_witness :
  let c := mkChrom 1000 5000 1000 "chr1" (Some 1) in
  getPointNum c 5000 = Ok (Some 4) /\ getPointNum c 999 = Ok None.
Proof.
  intros c.
  destruct (getPointNum_spec c ltac:(cbn; lia) ltac:(cbn; lia)) as (Hout & Hin & _ & _).
  split.
  - destruct (Hin 5000 ltac:(cbn; lia)) as (n & -> & -> & _). reflexivity.
  - apply Hout. cbn. lia.
Defined.

Section ReduceResFacts.

Lemma floor_multiple a b :
  0 < b -> (a / b) * b <= a < (a / b) * b + b.
Proof.
  intros Hb.
  pose proof (Z.mod_pos_bound a b Hb). pose proof (Z.div_mod a b). lia.
Qed.

End ReduceResFacts.

(** C3, as the code has it: with [res > 0] and a positive ratio, [reduceRes]
    returns chromosome parameters with [res' = res * ratio], with both
    [minPos'] and [maxPos'] rounded down to a multiple of [res']
    ([floor(minPos/res') * res'] and [floor(maxPos/res') * res']), and with
    the same name and size.  The result is a new value: the parameters it was
    computed from are not assigned to. *)
Theorem reduceRes_spec (c : ChromParameters) (ratio : Z) :
  0 < res c -> 0 < ratio ->
  exists c', reduceRes c ratio = Ok c' /\
    res c' = res c * ratio /\
    minPos c' = (minPos c / res c') * res c' /\
    maxPos c' = (maxPos c / res c') * res c' /\
    minPos c' <= minPos c < minPos c' + res c' /\
    maxPos c' <= maxPos c < maxPos c' + res c' /\
    name c' = name c /\ size c' = size c.
Proof.
  intros Hres Hratio.
  assert (Hlow : 0 < res c * ratio) by lia.
  unfold reduceRes. rewrite !py_div_pos by assumption. cbn.
  eexists. split; [reflexivity|]. cbn.
  repeat split; try reflexivity; apply floor_multiple; assumption.
Qed.

Lemma reduceRes_spec_witness :
  exists c', reduceRes (mkChrom 1000 7000 1000 "chr1" (Some 3)) 4 = Ok c' /\
    res c' = 4000 /\ minPos c' = 0 /\ maxPos c' = 4000.
Proof.
  destruct (reduceRes_spec (mkChrom 1000 7000 1000 "chr1" (Some 3)) 4
              ltac:(cbn; lia) ltac:(lia))
    as (c' & Hc' & Hres & Hmin & Hmax & _).
  exists c'. split; [exact Hc'|].
  cbn in Hres. rewrite Hres in Hmin, Hmax. cbn in Hmin, Hmax. auto.
Defined.

(** C3 as stated fails: the claim rounds [maxPos] up, the code rounds it
    down.  With [maxPos = 3000] and [res' = 2000] the code gives 2000, the
    claim [ceil(3000/2000) * 2000 = 4000]. *)
Lemma reduceRes_maxPos_rounds_down :
  exists c', reduceRes (mkChrom 0 3000 1000 "chr1" (Some 1)) 2 = Ok c' /\
    res c' = 2000 /\ maxPos c' = 2000 /\
    ceil_div 3000 (res c') * res c' = 4000 /\
    maxPos c' <> ceil_div 3000 (res c') * res c'.
Proof.
  eexists. split; [reflexivity|]. cbn. repeat split; done.
Qed.

Section ChromFromBedFacts.
Context `{Floats float}.

Lemma chromFromBed_scan_tail (l : list (@Contact float)) (k : nat)
    (st : scan_state) :
  (0 < k)%nat ->
  let st' := foldl chromFromBed_step st (zip (Z.of_nat <$> seq k (length l)) l) in
  scan_first st' = scan_first st /\
  scan_i st' = match l with
               | [] => scan_i st
               | _ => Some (Z.of_nat (k + length l) - 1)
               end.
Proof.
  revert k st. induction l as [|r l IH]; intros k st Hk; [done|].
  cbn [length seq fmap list_fmap zip zip_with foldl].
  destruct (IH (S k) (chromFromBed_step st (Z.of_nat k, r)) ltac:(lia)) as [IH1 IH2].
  cbn zeta in IH1, IH2. split.
  - rewrite IH1. cbn. destruct (Z.eqb_spec (Z.of_nat k) 0); [lia | done].
  - rewrite IH2. destruct l; cbn; f_equal; lia.
Qed.

(** The resolution and the name come from the first record; the size is the
    value of the loop variable after the last record, one less than the
    number of records. *)
Lemma chromFromBed_first_and_size (r : @Contact float) (rest : list Contact) :
  field2 r - field1 r <> 0 ->
  exists c, chromFromBed (r :: rest) = Ok c /\
    res c = field2 r - field1 r /\
    name c = field0 r /\
    size c = Some (Z.of_nat (length (r :: rest)) - 1).
Proof.
  intros Hres. unfold chromFromBed, enumerate.
  cbn [length seq fmap list_fmap zip zip_with foldl].
  match goal with |- context [foldl _ ?st0 _] => remember st0 as st eqn:Est end.
  destruct (chromFromBed_scan_tail rest 1 st ltac:(lia)) as [H1 H2].
  cbn zeta in H1, H2.
  assert (Hfirst : scan_first st = Some (field0 r, field2 r - field1 r))
    by (subst st; reflexivity).
  assert (Hi : scan_i st = Some 0) by (subst st; reflexivity).
  rewrite Hfirst in H1.
  assert (H2' : scan_i (foldl chromFromBed_step st
                   (zip (Z.of_nat <$> seq 1 (length rest)) rest))
                = Some (Z.of_nat (S (length rest)) - 1)).
  { rewrite H2. destruct rest; [rewrite Hi|]; f_equal; cbn; lia. }
  clear H2 Est Hfirst Hi.
  destruct (foldl chromFromBed_step st _) as [[mn mx] first i].
  cbn in H1, H2'. subst first i.
  cbn [scan_first scan_i scan_bounds].
  unfold floor_fdiv, ceil_fdiv, py_div.
  rewrite (proj2 (Z.eqb_neq _ _) Hres). cbn.
  eexists. split; [reflexivity|]. done.
Qed.

End ChromFromBedFacts.

(** C7 fails on the code.  The file of the single record
    [chr1 1000 2000 . 5000 . 3.0] has one record, and [chromFromBed] gives
    size 0: the size is the last value of the loop variable.  On the record
    [chr1 5000 6000 . 1000 . 3.0] the maximum stays at its initial 0, where
    the largest position is 5000: a position that lowers the minimum is not
    compared with the maximum. *)
Theorem chromFromBed_size_and_maxPos :
  chromFromBed [@mkContact Z "chr1" 1000 2000 5000 3]
    = Ok (mkChrom 1000 5000 1000 "chr1" (Some 0)) /\
  chromFromBed [@mkContact Z "chr1" 5000 6000 1000 3]
    = Ok (mkChrom 1000 0 1000 "chr1" (Some 0)).
Proof. split; vm_compute; reflexivity. Qed.

Section ResultFacts.

Lemma rbind_Ok {A B : Type} (r : result A) (k : A -> result B) (b : B) :
  rbind r k = Ok b -> exists a, r = Ok a /\ k a = Ok b.
Proof. destruct r as [a|e]; cbn; [eauto | discriminate]. Qed.

Lemma py_idx_lt n i k : py_idx n i = Ok k -> (k < n)%nat.
Proof.
  unfold py_idx. intros Hk.
  destruct (Z.leb_spec 0 i), (Z.ltb_spec i (Z.of_nat n)); cbn in Hk;
    try (inversion Hk; lia);
    destruct (Z.leb_spec (- Z.of_nat n) i), (Z.ltb_spec i 0); cbn in Hk;
    inversion Hk; lia.
Qed.

Lemma py_idx_nonneg n i : 0 <= i < Z.of_nat n -> py_idx n i = Ok (Z.to_nat i).
Proof.
  intros Hi. unfold py_idx.
  destruct (Z.leb_spec 0 i), (Z.ltb_spec i (Z.of_nat n)); cbn; (reflexivity || lia).
Qed.

End ResultFacts.

Section MatrixFacts.
Context `{Floats float}.
Implicit Types (mat : list (list float)) (s : @Structure float).
Implicit Types (line : @Contact float) (path : list (@Contact float)).

Lemma entry_Some_lt k mat i j x :
  square k mat -> entry mat i j = Some x -> (i < k)%nat /\ (j < k)%nat.
Proof.
  intros [Hlen Hrows] Hx. unfold entry in Hx.
  destruct (mat !! i) as [row|] eqn:Hrow; [|discriminate]. cbn in Hx.
  split.
  - apply lookup_lt_Some in Hrow. lia.
  - apply lookup_lt_Some in Hx.
    rewrite Forall_lookup in Hrows. rewrite <- (Hrows i row Hrow). exact Hx.
Qed.

Lemma entry_lt_Some k mat i j :
  square k mat -> (i < k)%nat -> (j < k)%nat -> is_Some (entry mat i j).
Proof.
  intros [Hlen Hrows] Hi Hj. unfold entry.
  destruct (lookup_lt_is_Some_2 mat i ltac:(lia)) as [row Hrow].
  rewrite Hrow. cbn. apply lookup_lt_is_Some_2.
  rewrite Forall_lookup in Hrows. rewrite (Hrows i row Hrow). exact Hj.
Qed.

Lemma square_zeros k : square k (replicate k (replicate k fzero)).
Proof.
  split; [apply length_replicate|].
  apply Forall_replicate, length_replicate.
Qed.

Lemma entry_zeros k i j :
  (i < k)%nat -> (j < k)%nat ->
  entry (replicate k (replicate k fzero)) i j = Some fzero.
Proof.
  intros Hi Hj. unfold entry.
  rewrite lookup_replicate_2 by assumption. cbn.
  by apply lookup_replicate_2.
Qed.

Lemma mat_add_entry k mat row col w mat' :
  square k mat -> mat_add mat row col w = Ok mat' ->
  exists r c x, py_idx k row = Ok r /\ py_idx k col = Ok c /\
    entry mat r c = Some x /\ square k mat' /\
    entry mat' r c = Some (fadd x w) /\
    (forall i j, (i, j) <> (r, c) -> entry mat' i j = entry mat i j).
Proof.
  intros [Hlen Hrows] Hadd. unfold mat_add in Hadd.
  apply rbind_Ok in Hadd as (r & Hr & Hadd).
  destruct (mat !! r) as [rowv|] eqn:Hrow; [|discriminate].
  apply rbind_Ok in Hadd as (c & Hc & Hadd).
  destruct (rowv !! c) as [x|] eqn:Hx; [|discriminate].
  inversion Hadd; subst mat'; clear Hadd.
  assert (Hrowlen : length rowv = k)
    by (rewrite Forall_lookup in Hrows; exact (Hrows r rowv Hrow)).
  exists r, c, x. rewrite Hlen in Hr. rewrite Hrowlen in Hc.
  split; [exact Hr|]. split; [exact Hc|].
  split; [unfold entry; rewrite Hrow; exact Hx|].
  split; [|split].
  - split; [by rewrite length_insert|].
    apply Forall_insert; [exact Hrows|]. by rewrite length_insert.
  - unfold entry. rewrite list_lookup_insert_eq by (eapply lookup_lt_Some; eauto).
    cbn. apply list_lookup_insert_eq. eapply lookup_lt_Some; eauto.
  - intros i j Hij. unfold entry.
    destruct (decide (i = r)) as [->|Hi].
    + rewrite list_lookup_insert_eq by (eapply lookup_lt_Some; eauto).
      rewrite Hrow. cbn. apply list_lookup_insert_ne. congruence.
    + by rewrite list_lookup_insert_ne.
Qed.

Lemma matFromBed_step_entry k s mat line mat' :
  square k mat -> matFromBed_step s mat line = Ok mat' ->
  square k mat' /\
  forall i j x, entry mat i j = Some x ->
    entry mat' i j =
      Some (if decide (cell_of s k line = Some (i, j)) then fadd x (field6 line) else x).
Proof.
  intros Hsq Hstep. unfold matFromBed_step in Hstep. unfold cell_of.
  apply rbind_Ok in Hstep as (index1 & -> & Hstep).
  apply rbind_Ok in Hstep as (index2 & -> & Hstep).
  destruct index1 as [index1|], index2 as [index2|];
    try (inversion Hstep; subst mat'; split; [exact Hsq|];
         intros i j x Hx; rewrite Hx; f_equal; by rewrite decide_False).
  destruct (if index1 >? index2 then (index1, index2) else (index2, index1))
    as [row col].
  destruct (mat_add_entry k mat row col (field6 line) mat' Hsq Hstep)
    as (r & c & x & -> & -> & Hx & Hsq' & Hrc & Hother).
  split; [exact Hsq'|]. intros i j y Hy.
  destruct (decide (Some (r, c) = Some (i, j))) as [Heq|Hne].
  - inversion Heq; subst i j. rewrite Hrc. congruence.
  - rewrite Hother by congruence. exact Hy.
Qed.

Lemma matFromBed_loop_entry k s path : forall mat mat',
  square k mat -> for_each (matFromBed_step s) path mat = Ok mat' ->
  square k mat' /\
  forall i j x, entry mat i j = Some x ->
    entry mat' i j = Some (foldl fadd x (weights_at s k path i j)).
Proof.
  induction path as [|line path IH]; intros mat mat' Hsq Hloop.
  - inversion Hloop; subst mat'. split; [exact Hsq|]. intros i j x Hx. exact Hx.
  - cbn in Hloop. apply rbind_Ok in Hloop as (mat1 & Hstep & Hloop).
    destruct (matFromBed_step_entry k s mat line mat1 Hsq Hstep) as [Hsq1 Hent1].
    destruct (IH mat1 mat' Hsq1 Hloop) as [Hsq' Hent'].
    split; [exact Hsq'|]. intros i j x Hx.
    rewrite (Hent' i j _ (Hent1 i j x Hx)). f_equal.
    unfold weights_at. rewrite filter_cons.
    destruct (decide (cell_of s k line = Some (i, j))); reflexivity.
Qed.

Lemma makeSymmetric_entry mat i j :
  entry (makeSymmetric mat) i j =
    x ← entry mat i j;
    Some (if (i <? j)%nat then default x (entry mat j i) else x).
Proof.
  unfold entry, makeSymmetric. rewrite list_lookup_imap.
  destruct (mat !! i) as [row|]; [|reflexivity]. cbn.
  rewrite list_lookup_imap. destruct (row !! j); reflexivity.
Qed.

Lemma makeSymmetric_square k mat : square k mat -> square k (makeSymmetric mat).
Proof.
  intros [Hlen Hrows]. unfold makeSymmetric. split; [by rewrite length_imap|].
  rewrite Forall_lookup. intros i row Hrow.
  rewrite list_lookup_imap in Hrow.
  destruct (mat !! i) as [row0|] eqn:Hrow0; [|discriminate].
  cbn in Hrow. inversion Hrow; subst row. rewrite length_imap.
  rewrite Forall_lookup in Hrows. eauto.
Qed.

Lemma makeSymmetric_sym k mat i j :
  square k mat -> entry (makeSymmetric mat) i j = entry (makeSymmetric mat) j i.
Proof.
  intros Hsq. rewrite !makeSymmetric_entry.
  destruct (decide (i < k)%nat) as [Hi|Hi]; [destruct (decide (j < k)%nat) as [Hj|Hj]|].
  - destruct (entry_lt_Some k mat i j Hsq Hi Hj) as [x Hx].
    destruct (entry_lt_Some k mat j i Hsq Hj Hi) as [y Hy].
    rewrite Hx, Hy.
    destruct (Nat.ltb_spec i j), (Nat.ltb_spec j i); cbn; try reflexivity; try lia.
    assert (i = j) by lia. subst. congruence.
  - destruct (entry mat i j) eqn:Hx; [apply (entry_Some_lt k) in Hx; [lia|done]|].
    destruct (entry mat j i) eqn:Hy; [apply (entry_Some_lt k) in Hy; [lia|done]|].
    reflexivity.
  - destruct (entry mat i j) eqn:Hx; [apply (entry_Some_lt k) in Hx; [lia|done]|].
    destruct (entry mat j i) eqn:Hy; [apply (entry_Some_lt k) in Hy; [lia|done]|].
    reflexivity.
Qed.

(** Every entry of the matrix before validation: the weights, added in file
    order, of the lines that go to the cell of the lower triangle. *)
Lemma contact_matrix_entry path s mat :
  contact_matrix path s = Ok mat ->
  let k := length (getPointNums s) in
  square k mat /\
  (forall i j, entry mat i j = entry mat j i) /\
  (forall i j, (i < k)%nat -> (j < k)%nat ->
     entry mat i j =
       Some (foldl fadd fzero (weights_at s k path (Nat.max i j) (Nat.min i j)))).
Proof.
  intros Hmat k. unfold contact_matrix in Hmat. fold k in Hmat.
  apply rbind_Ok in Hmat as (maxPointNum & _ & Hmat).
  destruct (negb _); [discriminate|].
  apply rbind_Ok in Hmat as (mat0 & Hloop & Hmat).
  inversion Hmat; subst mat; clear Hmat.
  destruct (matFromBed_loop_entry k s path _ mat0 (square_zeros k) Hloop)
    as [Hsq Hent].
  split; [by apply makeSymmetric_square|].
  split; [intros i j; by apply (makeSymmetric_sym k)|].
  intros i j Hi Hj. rewrite makeSymmetric_entry.
  rewrite (Hent i j fzero (entry_zeros k i j Hi Hj)).
  rewrite (Hent j i fzero (entry_zeros k j i Hj Hi)).
  destruct (Nat.ltb_spec i j); cbn.
  - by rewrite Nat.max_r, Nat.min_l by lia.
  - by rewrite Nat.max_l, Nat.min_r by lia.
Qed.

End MatrixFacts.

Section RowCheckFacts.
Context `{Floats float}.
Implicit Types (mat : list (list float)) (s : @Structure float).
Implicit Types (line : @Contact float) (path : list (@Contact float)).





End RowCheckFacts.



(** C2, as the code has it: a matrix that [matFromBed] returns is symmetric,
    and its diagonal entry [M[i,i]] is the sum, in file order and from 0, of
    the weights of the lines whose two loci both map to the point of index
    [i]; it is 0 when the file has no such line.  A line whose loci map to
    different points leaves the diagonal unchanged. *)
Theorem matFromBed_symmetric `{Floats float} (path : list Contact)
    (structure : option Structure) (s : Structure) (M : matrix float) :
  structure_or_default path structure = Ok s ->
  matFromBed path structure = Ok M ->
  let k := length (getPointNums s) in
  square k M /\
  (forall i j, entry M i j = entry M j i) /\
  (forall i, (i < k)%nat ->
     entry M i i = Some (foldl fadd fzero (weights_at s k path i i))) /\
  (forall i, (i < k)%nat ->
     (forall line, line ∈ path -> cell_of s k line <> Some (i, i)) ->
     entry M i i = Some fzero).
Proof.
  intros Hs HM k.
  unfold matFromBed in HM. rewrite Hs in HM. cbn in HM.
  apply rbind_Ok in HM as (mat & Hmat & HM).
  destruct (zero_rows _); [|discriminate]. inversion HM; subst M; clear HM.
  destruct (contact_matrix_entry path s mat Hmat) as (Hsq & Hsym & Hent).
  fold k in Hsq, Hent.
  assert (Hdiag : forall i, (i < k)%nat ->
            entry mat i i = Some (foldl fadd fzero (weights_at s k path i i))).
  { intros i Hi. rewrite (Hent i i Hi Hi). by rewrite Nat.max_id, Nat.min_id. }
  split; [exact Hsq|]. split; [exact Hsym|]. split; [exact Hdiag|].
  intros i Hi Hnone. rewrite (Hdiag i Hi). f_equal.
  unfold weights_at.
  replace (filter (fun line => cell_of s k line = Some (i, i)) path) with (@nil (@Contact float));
    [reflexivity|].
  symmetry. clear -Hnone. induction path as [|line path IH]; [reflexivity|].
  rewrite filter_cons. rewrite decide_False by (apply Hnone; left).
  apply IH. intros line' Hin. apply Hnone. by right.
Qed.

Lemma matFromBed_symmetric_witness :
  let M : list (list Z) := [[2; 3]; [3; 0]] in
  @entry Z M 0 1 = @entry Z M 1 0 /\
  @entry Z M 0 0 = Some 2 /\ @entry Z M 1 1 = Some 0.
Proof.
  intros M.
  destruct (@matFromBed_symmetric Z int_floats
              [Sample.contact 5000 3; Sample.contact 1000 2] None
              (@mkStructure Z
                 [Some (Sample.point 0 0); None; None; None; Some (Sample.point 4 1)]
                 [] Sample.chr1 0)
              M ltac:(vm_compute; reflexivity) ltac:(vm_compute; reflexivity))
    as (_ & Hsym & Hdiag & Hzero).
  split; [apply Hsym|]. split.
  - rewrite (Hdiag 0%nat) by (cbn; lia). reflexivity.
  - apply (Hzero 1%nat); [cbn; lia|].
    intros line Hin. vm_compute in Hin.
    repeat (apply elem_of_cons in Hin as [->|Hin]; [by vm_compute|]).
    by apply not_elem_of_nil in Hin.
Defined.

(** C2 as stated fails: a line whose two loci map to the same point is added
    to the diagonal.  After [chr1 1000 2000 . 5000 . 3.0], the line
    [chr1 1000 2000 . 1000 . 2.0] raises [M[0,0]] from 0 to 2. *)
Lemma matFromBed_diagonal_raised :
  @matFromBed Z int_floats [Sample.contact 5000 3] None = Ok [[0; 3]; [3; 0]] /\
  @matFromBed Z int_floats [Sample.contact 5000 3; Sample.contact 1000 2] None
    = Ok [[2; 3]; [3; 0]] /\
  @entry Z [[2; 3]; [3; 0]] 0 0 = Some 2 /\
  2 <> @fzero Z int_floats.
Proof. repeat split; vm_compute; congruence. Qed.

Section LoopFacts.

Lemma py_div_nonzero a b : b <> 0 -> py_div a b = Ok (a / b).
Proof. intros Hb. unfold py_div. by rewrite (proj2 (Z.eqb_neq _ _) Hb). Qed.

Lemma py_get_nonneg {A : Type} (l : list A) (i : nat) (a : A) :
  l !! i = Some a -> py_get l (Z.of_nat i) = Ok a.
Proof.
  intros Ha. unfold py_get.
  rewrite py_idx_nonneg by (apply lookup_lt_Some in Ha; lia).
  cbn. by rewrite Nat2Z.id, Ha.
Qed.

Lemma py_set_nonneg {A : Type} (l : list A) (i : nat) (a : A) :
  (i < length l)%nat -> py_set l (Z.of_nat i) a = Ok (<[i := a]> l).
Proof.
  intros Hi. unfold py_set. rewrite py_idx_nonneg by lia.
  cbn. by rewrite Nat2Z.id.
Qed.

Lemma np_zeros_nonneg {A : Type} (zero : A) (n : Z) :
  0 <= n -> np_zeros zero n = Ok (replicate (Z.to_nat n) zero).
Proof.
  intros Hn. unfold np_zeros. destruct (Z.ltb_spec n 0); [lia | reflexivity].
Qed.

End LoopFacts.

Section HighToLowFacts.
Context `{Floats float}.
Implicit Types (p : @Point float) (h : @Structure float).
Implicit Types (pts : list (option (@Point float))).

(** The first loop: each bucket receives, in slot order, the points whose
    local number divided by the ratio is its position. *)
Lemma bucket_loop off r (ps : list Point) : forall (all : list (list Point)),
  r <> 0 ->
  (forall p, p ∈ ps -> 0 <= (num p - off) / r < Z.of_nat (length all)) ->
  exists all', for_each (bucket_step off r) ps all = Ok all' /\
    length all' = length all /\
    forall i b, all !! i = Some b ->
      all' !! i = Some (b ++ filter (fun p => (num p - off) / r = Z.of_nat i) ps).
Proof.
  induction ps as [|p ps IH]; intros all Hr Hrange.
  - exists all. split; [reflexivity|]. split; [reflexivity|].
    intros i b Hb. by rewrite filter_nil, app_nil_r.
  - cbn [for_each]. unfold bucket_step at 1.
    rewrite py_div_nonzero by assumption. cbn [rbind].
    destruct (Hrange p ltac:(left)) as [Hlo Hhi].
    remember ((num p - off) / r) as q eqn:Eq.
    assert (Hk : exists kq, q = Z.of_nat kq /\ (kq < length all)%nat)
      by (exists (Z.to_nat q); lia).
    destruct Hk as (kq & -> & Hkq).
    destruct (lookup_lt_is_Some_2 all kq Hkq) as [b0 Hb0].
    rewrite (py_get_nonneg _ _ _ Hb0). cbn [rbind].
    rewrite py_set_nonneg by lia. cbn [rbind].
    destruct (IH (<[kq := b0 ++ [p]]> all) Hr) as (all' & Hloop & Hlen & Hall').
    { intros p' Hp'. rewrite length_insert. apply Hrange. by right. }
    exists all'. split; [exact Hloop|]. rewrite length_insert in Hlen.
    split; [exact Hlen|]. intros i b Hb. rewrite filter_cons.
    destruct (decide (i = kq)) as [->|Hi].
    + rewrite (Hall' kq (b0 ++ [p])).
      * rewrite decide_True by (symmetry; exact Eq).
        rewrite Hb0 in Hb. inversion Hb; subst b0.
        by rewrite <- app_assoc.
      * apply list_lookup_insert_eq. lia.
    + rewrite (Hall' i b) by (by rewrite list_lookup_insert_ne).
      rewrite decide_False by (rewrite <- Eq; lia). reflexivity.
Qed.

Lemma nonempty_before_S {A : Type} (l : list (list A)) (i : nat) (b : list A) :
  l !! i = Some b ->
  nonempty_before l (S i) =
    (nonempty_before l i + if decide (b <> []) then 1 else 0)%nat.
Proof.
  intros Hb. unfold nonempty_before.
  rewrite (take_S_r l i b Hb), filter_app, length_app. f_equal.
  rewrite filter_cons, filter_nil. by destruct (decide (b <> [])).
Qed.

(** The second loop, from position [k] on. *)
Lemma merge_loop c lo (l : list (list Point)) : forall (k : nat) pts (idx : Z),
  (k + length l <= length pts)%nat ->
  exists pts' idx',
    for_each (merge_step c lo) (zip (Z.of_nat <$> seq k (length l)) l) (pts, idx)
      = Ok (pts', idx') /\
    length pts' = length pts /\
    (forall j b, l !! j = Some b ->
       pts' !! (k + j)%nat =
         if decide (b <> [])
         then Some (Some (merged c lo (k + j) (idx + Z.of_nat (nonempty_before l j)) b))
         else pts !! (k + j)%nat) /\
    (forall i, (i < k)%nat -> pts' !! i = pts !! i).
Proof.
  induction l as [|b l IH]; intros k pts idx Hlen.
  - exists pts, idx. split; [reflexivity|]. split; [reflexivity|].
    split; [intros j b Hb; by rewrite lookup_nil in Hb | reflexivity].
  - cbn [length seq fmap list_fmap zip zip_with for_each].
    cbn [length] in Hlen. unfold merge_step at 1.
    destruct b as [|hp b].
    + cbn [length Z.of_nat Z.ltb Z.compare rbind].
      destruct (IH (S k) pts idx ltac:(lia)) as (pts' & idx' & Hloop & Hlen' & Hnew & Hold).
      exists pts', idx'. split; [exact Hloop|]. split; [exact Hlen'|]. split.
      * intros [|j] b' Hb'.
        -- inversion Hb'; subst b'. rewrite decide_False by (intros Hne; by apply Hne).
           apply Hold. lia.
        -- cbn in Hb'. replace (k + S j)%nat with (S k + j)%nat by lia.
           rewrite (Hnew j b' Hb'). destruct (decide (b' <> [])); [|reflexivity].
           assert (nonempty_before ([] :: l) (S j) = nonempty_before l j) as ->; [|done].
           unfold nonempty_before. cbn [take].
           rewrite filter_cons, decide_False by (intros Hne; by apply Hne). reflexivity.
      * intros i Hi. apply Hold. lia.
    + assert (Hpos : (0 <? Z.of_nat (length (hp :: b))) = true)
        by (apply Z.ltb_lt; cbn [length]; lia).
      rewrite Hpos. rewrite py_set_nonneg by lia. cbn [rbind].
      match goal with |- context [<[k := ?x]> pts] => set (slot := x) end.
      destruct (IH (S k) (<[k := slot]> pts) (idx + 1)
                  ltac:(rewrite length_insert; lia))
        as (pts' & idx' & Hloop & Hlen' & Hnew & Hold).
      exists pts', idx'. split; [exact Hloop|].
      rewrite length_insert in Hlen'. split; [exact Hlen'|]. split.
      * intros [|j] b' Hb'.
        -- inversion Hb'; subst b'. rewrite decide_True by done.
           rewrite Nat.add_0_r, Hold by lia.
           rewrite list_lookup_insert_eq by lia. subst slot. unfold merged.
           assert (nonempty_before ((hp :: b) :: l) 0 = 0%nat) as -> by reflexivity.
           by rewrite Z.add_0_r.
        -- cbn in Hb'. replace (k + S j)%nat with (S k + j)%nat by lia.
           rewrite (Hnew j b' Hb'). destruct (decide (b' <> [])).
           ++ assert (nonempty_before ((hp :: b) :: l) (S j)
                      = S (nonempty_before l j)) as ->.
              { unfold nonempty_before. cbn [take].
                by rewrite filter_cons, decide_True by done. }
              do 3 f_equal. lia.
           ++ apply list_lookup_insert_ne. lia.
      * intros i Hi. rewrite Hold by lia. apply list_lookup_insert_ne. lia.
Qed.

End HighToLowFacts.

Section HighToLowSpec.
Context `{Floats float}.
Implicit Types (p : @Point float) (h : @Structure float).

Lemma highToLow_run h r :
  0 < r -> res (chrom h) <> 0 ->
  (forall p, p ∈ getPoints h ->
     0 <= num p - offset h < Z.of_nat (length (points h))) ->
  exists lowChrom pts,
    reduceRes (chrom h) r = Ok lowChrom /\
    highToLow h r = Ok (mkStructure pts [] lowChrom (offset h / r)) /\
    Z.of_nat (length pts) = Z.of_nat (length (points h)) / r + 1 /\
    forall i, (i < length pts)%nat ->
      pts !! i =
        Some (if decide (bucket_of h r i <> [])
              then Some (merged lowChrom (offset h / r) i
                           (offset h / r +
                            Z.of_nat (nonempty_before
                                        (bucket_of h r <$> seq 0 (length pts)) i))
                           (bucket_of h r i))
              else None).
Proof.
  intros Hr Hres Hlocal. unfold highToLow.
  assert (Hlow : res (chrom h) * r <> 0) by lia.
  unfold reduceRes. rewrite !(py_div_nonzero _ _ Hlow). cbn [rbind].
  match goal with |- context [Ok ?c = Ok _] => set (lowChrom := c) end.
  rewrite !(py_div_nonzero _ r) by lia. cbn [rbind].
  set (len := Z.of_nat (length (points h))).
  assert (Hq : 0 <= len / r) by (apply Z.div_pos; lia).
  rewrite np_zeros_nonneg by lia. cbn [rbind offset points].
  set (n := Z.to_nat (len / r + 1)).
  destruct (bucket_loop (offset h) r (getPoints h) (replicate n []) ltac:(lia))
    as (all' & Hloop1 & Hlen1 & Hall').
  { intros p Hp. destruct (Hlocal p Hp) as [Hlo Hhi]. fold len in Hhi.
    rewrite length_replicate. split; [apply Z.div_pos; lia|].
    assert ((num p - offset h) / r <= len / r) by (apply Z.div_le_mono; lia).
    lia. }
  rewrite Hloop1. cbn [rbind].
  rewrite length_replicate in Hlen1.
  destruct (merge_loop lowChrom (offset h / r) all' 0 (replicate n None) (offset h / r))
    as (pts' & idx' & Hloop2 & Hlen2 & Hnew & _).
  { rewrite length_replicate. lia. }
  unfold enumerate. rewrite Hloop2. cbn [rbind fst set_points structures chrom offset].
  rewrite length_replicate in Hlen2.
  assert (Hbuckets : all' = bucket_of h r <$> seq 0 n).
  { apply list_eq. intros i. rewrite list_lookup_fmap.
    destruct (decide (i < n)%nat) as [Hi|Hi].
    - rewrite lookup_seq_lt by exact Hi. cbn.
      rewrite (Hall' i []) by (by apply lookup_replicate_2). reflexivity.
    - rewrite lookup_seq_ge by lia. cbn. apply lookup_ge_None. lia. }
  exists lowChrom, pts'. split; [reflexivity|]. split; [reflexivity|].
  split; [rewrite Hlen2; subst n; lia|].
  intros i Hi. rewrite Hlen2 in Hi |- *.
  assert (Hb : all' !! i = Some (bucket_of h r i)).
  { rewrite Hbuckets, list_lookup_fmap, lookup_seq_lt by exact Hi. reflexivity. }
  pose proof (Hnew i _ Hb) as Hpt. cbn [Nat.add] in Hpt. rewrite Hpt.
  destruct (decide (bucket_of h r i <> [])); [by rewrite Hbuckets|].
  by rewrite lookup_replicate_2.
Qed.

End HighToLowSpec.

(** C4, as the code has it: for a structure whose points have local numbers
    [num - offset] within the slot range (as the slot invariant gives) and a
    ratio [r > 0], [highToLow] returns a structure over
    [chrom.reduceRes(r)] with [floor(len(points)/r) + 1] slots and offset
    [offset/r]; every high point is in the bucket [(num - offset)/r], which
    is a slot of the result; an empty bucket gives an empty slot, and a
    non-empty bucket a point whose position is the coordinate-wise mean of
    the bucket and whose number is the slot plus the low offset.  A bucket of
    one point gives a point at that position, the mean of one number being
    that number. *)
Theorem highToLow_spec `{Floats float} (h : Structure) (r : Z) :
  0 < r -> res (chrom h) <> 0 ->
  Forall (fun p => 0 <= num p - offset h < Z.of_nat (length (points h)))
    (getPoints h) ->
  exists low lowChrom,
    highToLow h r = Ok low /\
    reduceRes (chrom h) r = Ok lowChrom /\ chrom low = lowChrom /\
    Z.of_nat (length (points low)) = Z.of_nat (length (points h)) / r + 1 /\
    offset low = offset h / r /\
    (forall hp, hp ∈ getPoints h ->
       exists i, (i < length (points low))%nat /\
         (num hp - offset h) / r = Z.of_nat i /\ hp ∈ bucket_of h r i) /\
    (forall i, (i < length (points low))%nat ->
       (bucket_of h r i = [] -> points low !! i = Some None) /\
       (bucket_of h r i <> [] ->
          exists lp, points low !! i = Some (Some lp) /\
            pos lp = mean_pos (pos <$> bucket_of h r i) /\
            num lp = Z.of_nat i + offset low /\ pchrom lp = lowChrom) /\
       (forall hp, bucket_of h r i = [hp] -> (forall x, fmean [x] = x) ->
          exists lp, points low !! i = Some (Some lp) /\ pos lp = pos hp)).
Proof.
  intros Hr Hres Hlocal. rewrite Forall_forall in Hlocal.
  destruct (highToLow_run h r Hr Hres Hlocal)
    as (lowChrom & pts & Hchrom & Hrun & Hlen & Hpts).
  exists (mkStructure pts [] lowChrom (offset h / r)), lowChrom.
  cbn [points chrom offset].
  split; [exact Hrun|]. split; [exact Hchrom|]. split; [reflexivity|].
  split; [exact Hlen|]. split; [reflexivity|]. split.
  - intros hp Hhp. destruct (Hlocal hp Hhp) as [Hlo Hhi].
    assert (0 <= (num hp - offset h) / r) by (apply Z.div_pos; lia).
    assert ((num hp - offset h) / r <= Z.of_nat (length (points h)) / r)
      by (apply Z.div_le_mono; lia).
    exists (Z.to_nat ((num hp - offset h) / r)).
    split; [lia|]. split; [lia|].
    unfold bucket_of. apply list_elem_of_filter. split; [lia | exact Hhp].
  - intros i Hi. pose proof (Hpts i Hi) as Hpt. split; [|split].
    + intros Hempty. rewrite Hpt. f_equal. by rewrite decide_False by (by intros []).
    + intros Hne. rewrite Hpt, decide_True by exact Hne.
      eexists. split; [reflexivity|]. done.
    + intros hp Hone Hmean. rewrite Hpt, decide_True by (by rewrite Hone).
      eexists. split; [reflexivity|]. rewrite Hone. cbn.
      unfold mean_pos. cbn. rewrite !Hmean. by destruct (pos hp) as [[x y] z].
Qed.

Lemma highToLow_spec_witness :
  exists low, @highToLow Z int_floats Sample.three_points 2 = Ok low /\
    Z.of_nat (length (points low)) = 3 /\ offset low = 0 /\
    exists lp, points low !! 1%nat = Some (Some lp) /\ pos lp = (0, 0, 0).
Proof.
  destruct (@highToLow_spec Z int_floats Sample.three_points 2
              ltac:(lia) ltac:(cbn; lia)
              ltac:(repeat constructor; cbn; lia))
    as (low & lowChrom & Hrun & Hchrom & _ & Hlen & Hoff & _ & Hslots).
  exists low. split; [exact Hrun|].
  split; [exact Hlen|]. split; [exact Hoff|].
  assert (Hi : (1 < length (points low))%nat).
  { apply Nat2Z.inj_lt. rewrite Hlen. reflexivity. }
  destruct (Hslots 1%nat Hi) as (_ & _ & Hone).
  apply (Hone (Sample.point 2 1)); [reflexivity|].
  intros x. cbn. by rewrite Z.add_0_r, Z.div_1_r.
Defined.

(** C4 as stated fails: the slot count is [floor(len/r) + 1], not
    [ceil(len/r) + 1].  Five slots and the ratio 2 give 3 slots; the claim
    says 4. *)
Lemma highToLow_slot_count_rounds_down :
  exists low, @highToLow Z int_floats Sample.three_points 2 = Ok low /\
    length (points Sample.three_points) = 5%nat /\
    length (points low) = 3%nat /\
    ceil_div 5 2 + 1 = 4.
Proof. eexists. split; [reflexivity|]. by vm_compute. Qed.

(** C10 fails on the code: [highToLow] counts the indices of its points from
    the low offset, not from 0.  For the substructure of offset 2 with points
    2, 3 and 5 and the ratio 2, the low offset is 1 and the two points of the
    result have the indices 1 and 2. *)
Theorem highToLow_index_from_offset :
  exists low, @highToLow Z int_floats Sample.shifted 2 = Ok low /\
    offset low = 1 /\
    getPointNums low = [1; 2] /\
    index <$> getPoints low = [1; 2].
Proof. eexists. split; [reflexivity|]. by vm_compute. Qed.

Section IndexPointsFacts.
Context `{Floats float}.
Implicit Types (p : @Point float) (s : @Structure float).
Implicit Types (pts todo : list (option (@Point float))).

Lemma reindex_length pts k : length (reindex pts k) = length pts.
Proof.
  revert k. induction pts as [|[p|] pts IH]; intros k; cbn; [done|..];
    by rewrite IH.
Qed.

(** Re-indexing changes the index of a point and nothing else, and leaves
    the empty slots empty. *)
Lemma reindex_lookup pts k i :
  reindex pts k !! i =
    match pts !! i with
    | Some (Some p) =>
        Some (Some (set_index p (k + Z.of_nat (length (omap id (take i pts))))))
    | Some None => Some None
    | None => None
    end.
Proof.
  revert k i. induction pts as [|[p|] pts IH]; intros k [|i]; cbn; try done.
  - by rewrite Z.add_0_r.
  - rewrite IH. destruct (pts !! i) as [[q|]|]; try done.
    do 3 f_equal. lia.
Qed.

(** The indices after re-indexing, in slot order: [k], [k+1], ... *)
Lemma reindex_dense pts k :
  index <$> omap id (reindex pts k) =
    (fun j => k + Z.of_nat j) <$> seq 0 (length (omap id pts)).
Proof.
  revert k. induction pts as [|[p|] pts IH]; intros k; cbn; [done|..].
  - rewrite IH. f_equal; [lia|].
    rewrite <- fmap_S_seq, <- list_fmap_compose.
    apply list_fmap_ext. intros _ j _. cbn. lia.
  - apply IH.
Qed.

Lemma reindex_nums pts k : num <$> omap id (reindex pts k) = num <$> omap id pts.
Proof.
  revert k. induction pts as [|[p|] pts IH]; intros k; cbn; [done|..];
    by rewrite IH.
Qed.

(** The loop of [indexPoints] on the slots [todo] that follow the slots
    [done], the points of [todo] being numbered by their slots. *)
Lemma indexPoints_loop_from off todo : forall (done : list (option Point)) (k : nat),
  (forall j p, todo !! j = Some (Some p) ->
     num p = Z.of_nat (length done + j) + off) ->
  for_each (indexPoints_body off)
    (zip (Z.of_nat <$> seq k (length (num <$> omap id todo))) (num <$> omap id todo))
    (done ++ todo)
  = Ok (done ++ reindex todo (Z.of_nat k)).
Proof.
  induction todo as [|[p|] todo IH]; intros done k Hnum.
  - reflexivity.
  - cbn [omap list_omap id fmap list_fmap length seq zip zip_with for_each reindex].
    unfold indexPoints_body at 1.
    assert (Hp : num p - off = Z.of_nat (length done))
      by (rewrite (Hnum 0%nat p eq_refl); lia).
    rewrite Hp.
    rewrite (py_get_nonneg _ _ (Some p)) by (by rewrite lookup_app_r, Nat.sub_diag).
    cbn [rbind]. rewrite py_set_nonneg by (rewrite length_app; cbn; lia).
    cbn [rbind].
    rewrite insert_app_r_alt, Nat.sub_diag by lia. cbn [insert list_insert].
    rewrite (cons_middle _ done), (cons_middle _ done (reindex _ _)), !app_assoc.
    replace (Z.of_nat k + 1) with (Z.of_nat (S k)) by lia.
    apply IH. intros j q Hq. rewrite length_app. cbn [length].
    rewrite (Hnum (S j) q Hq). lia.
  - cbn [omap list_omap id reindex].
    rewrite (cons_middle _ done), (cons_middle _ done (reindex _ _)), !app_assoc.
    apply IH. intros j q Hq. rewrite length_app. cbn [length].
    rewrite (Hnum (S j) q Hq). lia.
Qed.

(** On a structure that satisfies the slot invariant, [indexPoints] gives
    the points the indices 0, 1, ... in slot order, whatever the offset. *)
Lemma indexPoints_dense s :
  slot_inv s ->
  indexPoints s = Ok (set_points s (reindex (points s) 0)) /\
  slot_inv (set_points s (reindex (points s) 0)) /\
  index <$> getPoints (set_points s (reindex (points s) 0)) =
    Z.of_nat <$> seq 0 (length (getPoints s)).
Proof.
  intros Hinv. split; [|split].
  - unfold indexPoints, indexPoints_loop, enumerate, getPointNums, getPoints.
    pose proof (indexPoints_loop_from (offset s) (points s) [] 0) as Hloop.
    cbn [app] in Hloop. rewrite Hloop; [reflexivity|].
    intros j p Hp. cbn. exact (Hinv j p Hp).
  - intros i p Hp. cbn [set_points points offset] in *.
    rewrite reindex_lookup in Hp.
    destruct (points s !! i) as [[q|]|] eqn:Hq; try discriminate.
    inversion Hp; subst p. cbn. exact (Hinv i q Hq).
  - unfold getPoints. cbn [set_points points]. rewrite reindex_dense.
    apply list_fmap_ext. intros _ j _. cbn. lia.
Qed.

End IndexPointsFacts.

Section StructureFromBedFacts.
Context `{Floats float}.
Implicit Types (s : @Structure float) (line : @Contact float).
Implicit Types (path : list (@Contact float)).
Implicit Types (slots : list (option (option Z))).

Lemma scan_inv_insert n off slots (i : nat) :
  scan_inv n off slots -> (i < n)%nat ->
  scan_inv n off (<[i := Some (Some (Z.of_nat i + off))]> slots).
Proof.
  intros [Hlen Hslots] Hi. split; [by rewrite length_insert|].
  intros j o Hj. destruct (decide (j = i)) as [->|Hne].
  - rewrite list_lookup_insert_eq in Hj by lia. by inversion Hj.
  - rewrite list_lookup_insert_ne in Hj by done. eauto.
Qed.

Lemma structureFromBed_step_inv c start end_ off slots line :
  0 < res c -> minPos c <= start -> end_ <= maxPos c ->
  start = minPos c + off * res c ->
  scan_inv (Z.to_nat ((end_ - start) / res c + 1)) off slots ->
  exists slots', structureFromBed_step c start end_ slots line = Ok slots' /\
    scan_inv (Z.to_nat ((end_ - start) / res c + 1)) off slots'.
Proof.
  intros Hres Hstart Hend Hoff Hinv. unfold structureFromBed_step.
  destruct (_ && _) eqn:Hin; [|eauto].
  apply andb_prop in Hin as [Hin H4]. apply andb_prop in Hin as [Hin H3].
  apply andb_prop in Hin as [H1 H2].
  apply Z.leb_le in H1, H2, H3, H4.
  rewrite !getPointNum_inside by lia. cbn [rbind].
  destruct (bool_decide _); [|eauto].
  assert (Hslot : forall pos, start <= pos <= end_ ->
            exists i, (pos - start) / res c = Z.of_nat i /\
              (i < Z.to_nat ((end_ - start) / res c + 1))%nat /\
              (pos - minPos c) / res c = Z.of_nat i + off).
  { intros pos [Hlo Hhi].
    assert (0 <= (pos - start) / res c) by (apply Z.div_pos; lia).
    assert ((pos - start) / res c <= (end_ - start) / res c)
      by (apply Z.div_le_mono; lia).
    exists (Z.to_nat ((pos - start) / res c)). split; [lia|]. split; [lia|].
    replace (pos - minPos c) with (pos - start + off * res c) by lia.
    rewrite Z.div_add by lia. lia. }
  destruct (Hslot (field1 line) ltac:(lia)) as (i1 & Hi1 & Hlt1 & ->).
  destruct (Hslot (field4 line) ltac:(lia)) as (i2 & Hi2 & Hlt2 & ->).
  rewrite !py_div_pos by assumption. cbn [rbind]. rewrite Hi1, Hi2.
  pose proof (scan_inv_insert _ _ _ i1 Hinv Hlt1) as Hinv1.
  rewrite py_set_nonneg by (destruct Hinv as [-> _]; lia). cbn [rbind].
  rewrite py_set_nonneg by (destruct Hinv1 as [-> _]; lia).
  eexists. split; [reflexivity|]. by apply scan_inv_insert.
Qed.

Lemma structureFromBed_loop_inv c start end_ off path : forall slots,
  0 < res c -> minPos c <= start -> end_ <= maxPos c ->
  start = minPos c + off * res c ->
  scan_inv (Z.to_nat ((end_ - start) / res c + 1)) off slots ->
  exists slots', for_each (structureFromBed_step c start end_) path slots = Ok slots' /\
    scan_inv (Z.to_nat ((end_ - start) / res c + 1)) off slots'.
Proof.
  induction path as [|line path IH]; intros slots Hres Hstart Hend Hoff Hinv.
  - by exists slots.
  - destruct (structureFromBed_step_inv c start end_ off slots line
                Hres Hstart Hend Hoff Hinv) as (slots1 & Hstep & Hinv1).
    cbn [for_each]. rewrite Hstep. cbn [rbind]. by apply IH.
Qed.

(** With a range within the chromosome and an offset that is the point
    number of [start], [structureFromBed] returns a structure that satisfies
    the slot invariant, indexed from 0 in slot order. *)
Lemma structureFromBed_valid path (chrom0 : option ChromParameters)
    (start end_ : option Z) (off : Z) (c : ChromParameters) :
  match chrom0 with None => chromFromBed path | Some c => Ok c end = Ok c ->
  0 < res c ->
  minPos c <= default (minPos c) start ->
  default (minPos c) start <= default (maxPos c) end_ ->
  default (maxPos c) end_ <= maxPos c ->
  default (minPos c) start = minPos c + off * res c ->
  exists s, structureFromBed path chrom0 start end_ off = Ok s /\
    chrom s = c /\ offset s = off /\ slot_inv s /\
    Z.of_nat (length (points s)) =
      (default (maxPos c) end_ - default (minPos c) start) / res c + 1 /\
    index <$> getPoints s = Z.of_nat <$> seq 0 (length (getPoints s)).
Proof.
  intros Hc Hres Hstart Horder Hend Hoff. unfold structureFromBed.
  rewrite Hc. cbn [rbind].
  set (st := default (minPos c) start) in *.
  set (en := default (maxPos c) end_) in *.
  rewrite py_div_pos by assumption. cbn [rbind].
  assert (Hq : 0 <= (en - st) / res c) by (apply Z.div_pos; lia).
  rewrite np_zeros_nonneg by lia. cbn [rbind].
  destruct (structureFromBed_loop_inv c st en off path
              (replicate (Z.to_nat ((en - st) / res c + 1)) None)
              Hres Hstart Hend Hoff) as (slots & -> & Hlen & Hslots).
  { split; [apply length_replicate|]. intros i o Hi.
    apply lookup_replicate in Hi as [? _]. discriminate. }
  cbn [rbind].
  assert (Hfind : list_find (fun n : option Z => n = None) (omap id slots) = None).
  { apply list_find_None, Forall_forall. intros o Ho.
    apply list_elem_of_omap in Ho as (slot & Hin & Hslot).
    apply list_elem_of_lookup in Hin as [i Hi].
    unfold id in Hslot. subst slot. by rewrite (Hslots i o Hi). }
  rewrite Hfind.
  match goal with |- context [indexPoints ?s0] => set (s := s0) end.
  assert (Hinv : slot_inv s).
  { intros i p Hp. subst s. cbn [points offset] in *.
    rewrite list_lookup_fmap in Hp.
    destruct (slots !! i) as [[o|]|] eqn:Hi; try discriminate.
    cbn in Hp. inversion Hp; subst p. cbn. by rewrite (Hslots i o Hi). }
  destruct (indexPoints_dense s Hinv) as (Hrun & Hinv' & Hdense).
  eexists. split; [exact Hrun|].
  split; [reflexivity|]. split; [reflexivity|]. split; [exact Hinv'|]. split.
  - cbn [set_points points]. rewrite reindex_length. subst s. cbn [points].
    rewrite length_fmap, Hlen. lia.
  - rewrite Hdense. do 2 f_equal. unfold getPoints. cbn [set_points points].
    by rewrite <- (length_fmap num (omap id (reindex _ _))), reindex_nums, length_fmap.
Qed.

End StructureFromBedFacts.

Section SetStructuresFacts.
Context `{Floats float}.
Implicit Types (p : @Point float) (s self : @Structure float).
Implicit Types (pts : list (option (@Point float))).

Lemma foldl_max_spec (l : list Z) : forall x,
  x <= foldl Z.max x l /\ (forall y, y ∈ l -> y <= foldl Z.max x l).
Proof.
  induction l as [|a l IH]; intros x; cbn.
  - split; [lia|]. intros y Hy. by apply not_elem_of_nil in Hy.
  - destruct (IH (Z.max x a)) as [Hx Hl]. split; [lia|].
    intros y Hy. apply elem_of_cons in Hy as [->|Hy]; [lia|auto].
Qed.

Lemma py_max_spec (l : list Z) :
  l <> [] -> exists m, py_max l = Ok m /\ forall y, y ∈ l -> y <= m.
Proof.
  destruct l as [|x l]; [done|]. intros _. eexists. split; [reflexivity|].
  destruct (foldl_max_spec l x) as [Hx Hl].
  intros y Hy. apply elem_of_cons in Hy as [->|Hy]; auto.
Qed.

Lemma map_r_total {A B : Type} (f : A -> result B) (l : list A) :
  (forall a, a ∈ l -> exists b, f a = Ok b) ->
  exists bs, map_r f l = Ok bs /\ Forall2 (fun a b => f a = Ok b) l bs.
Proof.
  induction l as [|a l IH]; intros Hall.
  - exists []. split; [reflexivity | constructor].
  - destruct (Hall a ltac:(left)) as [b Hb].
    destruct IH as (bs & Hbs & Hall2); [intros a' Ha'; apply Hall; by right|].
    exists (b :: bs). cbn. rewrite Hb. cbn. rewrite Hbs. cbn.
    split; [reflexivity | by constructor].
Qed.

Lemma setstructures_inner n (slots : list (option Point)) : forall pts,
  by_num n pts ->
  (forall p, Some p ∈ slots -> 0 <= num p < Z.of_nat n) ->
  exists pts',
    for_each (fun pts point =>
                match point with
                | None => Ok pts
                | Some p => py_set pts (num p) (Some p)
                end) slots pts = Ok pts' /\
    by_num n pts'.
Proof.
  induction slots as [|[p|] slots IH]; intros pts Hpts Hrange.
  - by exists pts.
  - cbn [for_each]. destruct (Hrange p ltac:(left)) as [Hlo Hhi].
    destruct Hpts as [Hlen Hslots].
    replace (py_set pts (num p) (Some p))
      with (py_set pts (Z.of_nat (Z.to_nat (num p))) (Some p))
      by (by rewrite Z2Nat.id).
    rewrite py_set_nonneg by lia. cbn [rbind].
    apply IH; [|intros q Hq; apply Hrange; by right].
    split; [by rewrite length_insert|]. intros i q Hq.
    destruct (decide (i = Z.to_nat (num p))) as [->|Hne].
    + rewrite list_lookup_insert_eq in Hq by lia. inversion Hq; subst q. lia.
    + rewrite list_lookup_insert_ne in Hq by done. eauto.
  - cbn [for_each rbind]. apply IH; [exact Hpts|].
    intros q Hq. apply Hrange. by right.
Qed.

Lemma setstructures_outer n (strs : list Structure) : forall pts,
  by_num n pts ->
  (forall s p, s ∈ strs -> Some p ∈ points s -> 0 <= num p < Z.of_nat n) ->
  exists pts',
    for_each (fun pts structure =>
      for_each (fun pts point =>
                  match point with
                  | None => Ok pts
                  | Some p => py_set pts (num p) (Some p)
                  end) (points structure) pts) strs pts = Ok pts' /\
    by_num n pts'.
Proof.
  induction strs as [|s strs IH]; intros pts Hpts Hrange.
  - by exists pts.
  - cbn [for_each].
    destruct (setstructures_inner n (points s) pts Hpts) as (pts1 & -> & Hpts1).
    { intros p Hp. apply (Hrange s p); [left | exact Hp]. }
    cbn [rbind]. apply IH; [exact Hpts1|].
    intros s' p Hs' Hp. apply (Hrange s' p); [by right | exact Hp].
Qed.

Lemma elem_of_getPoints s p : p ∈ getPoints s <-> Some p ∈ points s.
Proof.
  unfold getPoints. rewrite list_elem_of_omap. split.
  - intros (slot & Hin & Hslot). unfold id in Hslot. by subst slot.
  - intros Hin. by exists (Some p).
Qed.

(** Composition: when every child has a point and no point number is
    negative, [setstructures] stores every point in the slot of its number,
    and keeps the offset of the parent. *)
Lemma setstructures_valid self (strs : list Structure) :
  strs <> [] ->
  (forall s, s ∈ strs -> getPointNums s <> []) ->
  (forall s p, s ∈ strs -> p ∈ getPoints s -> 0 <= num p) ->
  exists s', setstructures self strs = Ok s' /\
    structures s' = strs /\ chrom s' = chrom self /\ offset s' = offset self /\
    forall i p, points s' !! i = Some (Some p) -> num p = Z.of_nat i.
Proof.
  intros Hne Hpoints Hnonneg. unfold setstructures.
  destruct (map_r_total (fun structure => py_max (getPointNums structure)) strs)
    as (maxes & -> & Hmaxes).
  { intros s Hs. destruct (py_max_spec _ (Hpoints s Hs)) as (m & Hm & _). eauto. }
  cbn [rbind].
  assert (Hmaxes_ne : maxes <> []).
  { destruct Hmaxes; [done | discriminate]. }
  destruct (py_max_spec maxes Hmaxes_ne) as (m & -> & Hm). cbn [rbind].
  assert (Hbound : forall s p, s ∈ strs -> p ∈ getPoints s -> 0 <= num p <= m).
  { intros s p Hs Hp. split; [eauto|].
    apply list_elem_of_lookup in Hs as [i Hi].
    destruct (Forall2_lookup_l _ _ _ _ _ Hmaxes Hi) as (ms & Hms & Hmax).
    destruct (py_max_spec _ (Hpoints s ltac:(apply list_elem_of_lookup; eauto)))
      as (ms' & Hmax' & Hle).
    rewrite Hmax in Hmax'. inversion Hmax'; subst ms'.
    transitivity ms.
    - apply Hle. unfold getPointNums. by apply list_elem_of_fmap_2.
    - apply Hm. apply list_elem_of_lookup. eauto. }
  assert (Hm0 : 0 <= m).
  { destruct strs as [|s strs]; [done|].
    pose proof (Hpoints s ltac:(left)) as Hs. unfold getPointNums in Hs.
    destruct (getPoints s) as [|p ps] eqn:Hps; [done|].
    destruct (Hbound s p ltac:(left) ltac:(rewrite Hps; left)). lia. }
  rewrite np_zeros_nonneg by lia. cbn [rbind].
  destruct (setstructures_outer (Z.to_nat (m + 1)) strs
              (replicate (Z.to_nat (m + 1)) None))
    as (pts & -> & Hlen & Hslots).
  { split; [apply length_replicate|]. intros i p Hp.
    apply lookup_replicate in Hp as [? _]. discriminate. }
  { intros s p Hs Hp. apply elem_of_getPoints in Hp.
    destruct (Hbound s p Hs Hp). lia. }
  cbn [rbind]. eexists. split; [reflexivity|]. cbn. auto.
Qed.

End SetStructuresFacts.

Section StringFacts.

Lemma app_cons (a : ascii) (s t : string) : String a s +:+ t = String a (s +:+ t).
Proof. reflexivity. Qed.

Lemma app_empty_l (s : string) : "" +:+ s = s.
Proof. reflexivity. Qed.

Lemma app_empty_r (s : string) : s +:+ "" = s.
Proof. induction s as [|a s IH]; [done|]. by rewrite app_cons, IH. Qed.

Lemma app_assoc_s (s t u : string) : (s +:+ t) +:+ u = s +:+ (t +:+ u).
Proof. induction s as [|a s IH]; [done|]. by rewrite !app_cons, IH. Qed.

Lemma no_space_app (s t : string) :
  no_space (s +:+ t) = no_space s && no_space t.
Proof.
  induction s as [|a s IH]; [done|].
  rewrite app_cons. cbn. rewrite IH. by rewrite andb_assoc.
Qed.

Lemma no_space_no_newline (s : string) : no_space s = true -> no_newline s = true.
Proof.
  induction s as [|a s IH]; [done|]. cbn. intros Hs.
  apply andb_prop in Hs as [Ha Hs]. rewrite (IH Hs), andb_true_r.
  destruct (Ascii.eqb_spec a "010"%char) as [->|]; [discriminate | done].
Qed.

Lemma no_newline_app (s t : string) :
  no_newline (s +:+ t) = no_newline s && no_newline t.
Proof.
  induction s as [|a s IH]; [done|].
  rewrite app_cons. cbn. rewrite IH. by rewrite andb_assoc.
Qed.

(** [lines]: a text without newline, then a newline, is one line. *)
Lemma lines_app_nl (s rest : string) :
  no_newline s = true -> lines (s +:+ nl +:+ rest) = (s +:+ nl) :: lines rest.
Proof.
  induction s as [|a s IH]; intros Hs; [done|].
  cbn in Hs. apply andb_prop in Hs as [Ha Hs].
  rewrite !app_cons. cbn [lines].
  destruct (Ascii.eqb a "010"%char); [discriminate|].
  by rewrite (IH Hs).
Qed.

Lemma lstrip_token (s t : string) : token s -> lstrip (s +:+ t) = s +:+ t.
Proof.
  intros [Hne Hs]. destruct s as [|a s]; [done|].
  cbn in Hs. apply andb_prop in Hs as [Ha _].
  rewrite app_cons. cbn. by destruct (Ascii.is_space a).
Qed.

Lemma rstrip_nl (s : string) : rstrip (s +:+ nl) = rstrip s.
Proof.
  induction s as [|a s IH]; [done|]. rewrite app_cons. cbn [rstrip]. by rewrite IH.
Qed.

Lemma rstrip_token (s t : string) : token t -> rstrip (s +:+ t) = s +:+ t.
Proof.
  intros [Hne Ht]. induction s as [|a s IH].
  - rewrite app_empty_l. clear Hne. induction t as [|a t IH]; [done|].
    cbn in Ht. apply andb_prop in Ht as [Ha Ht]. cbn [rstrip].
    rewrite (IH Ht). destruct t; [|done]. by destruct (Ascii.is_space a).
  - rewrite app_cons. cbn [rstrip]. rewrite IH.
    destruct (s +:+ t) eqn:Hst; [|done].
    destruct s; [|discriminate]. by rewrite app_empty_l in Hst.
Qed.

Lemma strip_nl (s : string) : strip (s +:+ nl) = strip s.
Proof.
  unfold strip. induction s as [|a s IH]; [done|].
  rewrite app_cons. cbn [lstrip]. destruct (Ascii.is_space a); [exact IH|].
  rewrite <- app_cons. apply rstrip_nl.
Qed.

Lemma strip_token (s : string) : token s -> strip s = s.
Proof.
  intros Hs. unfold strip.
  rewrite <- (app_empty_r s) at 1. rewrite (lstrip_token s "" Hs), app_empty_r.
  rewrite <- (app_empty_l s) at 1. by rewrite rstrip_token.
Qed.

Lemma split_aux_token (t s : string) :
  no_space t = true ->
  split_aux (t +:+ s) = ((t +:+ (split_aux s).1), (split_aux s).2).
Proof.
  induction t as [|a t IH]; intros Ht.
  - rewrite !app_empty_l. by destruct (split_aux s).
  - cbn in Ht. apply andb_prop in Ht as [Ha Ht].
    rewrite !app_cons. cbn [split_aux]. rewrite (IH Ht).
    by destruct (Ascii.is_space a).
Qed.

Lemma split_aux_join (t : string) (ts : list string) :
  token t -> Forall token ts ->
  split_aux (join tab (t :: ts)) = (t, ts).
Proof.
  intros Ht Hts. revert t Ht. induction Hts as [|t' ts Ht' Hts IH]; intros t Ht.
  - cbn [join]. rewrite <- (app_empty_r t) at 1.
    rewrite split_aux_token by apply Ht. cbn. by rewrite app_empty_r.
  - change (join tab (t :: t' :: ts)) with (t +:+ tab +:+ join tab (t' :: ts)).
    rewrite split_aux_token by apply Ht.
    change (tab +:+ join tab (t' :: ts))
      with (String "009"%char (join tab (t' :: ts))).
    cbn [split_aux]. rewrite (IH t' Ht'). cbn.
    rewrite app_empty_r. destruct Ht' as [Hne _]. by destruct t'.
Qed.

Lemma split_join (t : string) (ts : list string) :
  token t -> Forall token ts -> split (join tab (t :: ts)) = t :: ts.
Proof.
  intros Ht Hts. unfold split. rewrite split_aux_join by assumption.
  destruct Ht as [Hne _]. by destruct t.
Qed.

Lemma join_token (t : string) (ts : list string) :
  token t -> Forall token ts -> no_newline (join tab (t :: ts)) = true.
Proof.
  intros Ht Hts. revert t Ht. induction Hts as [|t' ts Ht' Hts IH]; intros t Ht.
  - apply no_space_no_newline, Ht.
  - change (join tab (t :: t' :: ts)) with (t +:+ tab +:+ join tab (t' :: ts)).
    rewrite !no_newline_app, (IH t' Ht'), andb_true_r.
    rewrite (no_space_no_newline t) by apply Ht. reflexivity.
Qed.

Lemma join_split_last (t : string) (ts : list string) :
  token t -> Forall token ts ->
  exists s last, join tab (t :: ts) = s +:+ last /\ token last.
Proof.
  intros Ht Hts. revert t Ht. induction Hts as [|t' ts Ht' Hts IH]; intros t Ht.
  - by exists "", t.
  - destruct (IH t' Ht') as (s & last & Hjoin & Hlast).
    exists (t +:+ tab +:+ s), last. split; [|exact Hlast].
    change (join tab (t :: t' :: ts)) with (t +:+ tab +:+ join tab (t' :: ts)).
    by rewrite Hjoin, !app_assoc_s.
Qed.

Lemma join_split_first (t : string) (ts : list string) :
  exists rest, join tab (t :: ts) = t +:+ rest.
Proof.
  destruct ts as [|t' ts].
  - exists "". cbn. by rewrite app_empty_r.
  - by exists (tab +:+ join tab (t' :: ts)).
Qed.

(** A data line as [write] prints it is read back as its fields. *)
Lemma split_strip_line (t : string) (ts : list string) :
  token t -> Forall token ts ->
  split (strip (join tab (t :: ts) +:+ nl)) = t :: ts.
Proof.
  intros Ht Hts. rewrite strip_nl.
  assert (Hstrip : strip (join tab (t :: ts)) = join tab (t :: ts)).
  { unfold strip.
    destruct (join_split_first t ts) as [rest Hfirst].
    rewrite Hfirst, lstrip_token by exact Ht. rewrite <- Hfirst.
    destruct (join_split_last t ts Ht Hts) as (s & last & -> & Hlast).
    by apply rstrip_token. }
  rewrite Hstrip. by apply split_join.
Qed.

Lemma no_space_uint (u : Decimal.uint) :
  no_space (NilEmpty.string_of_uint u) = true.
Proof. induction u; cbn; auto. Qed.

Lemma str_int_token (z : Z) : token (str_int z).
Proof.
  unfold str_int, NilZero.string_of_int, NilZero.string_of_uint.
  destruct z as [|p|p]; cbn [Z.to_int].
  - done.
  - pose proof (DecimalPos.Unsigned.to_uint_nonnil p) as Hnil.
    destruct (Pos.to_uint p) eqn:Hp; try done;
      (split; [done | rewrite <- Hp; apply no_space_uint || (cbn; apply no_space_uint)]).
  - pose proof (DecimalPos.Unsigned.to_uint_nonnil p) as Hnil.
    split; [done|]. cbn.
    destruct (Pos.to_uint p) eqn:Hp; try done; cbn; apply no_space_uint.
Qed.

Lemma py_int_str_int (z : Z) : py_int (str_int z) = Ok z.
Proof.
  unfold py_int, str_int.
  assert (Hparse : NilZero.int_of_string (NilZero.string_of_int (Z.to_int z))
                   = Some (Z.to_int z)).
  { apply NilZero.isi; destruct z; cbn; try discriminate;
      intros Heq; inversion Heq as [Hnil];
      by apply DecimalPos.Unsigned.to_uint_nonnil in Hnil. }
  rewrite Hparse, DecimalZ.of_to.
  destruct (NilZero.string_of_int (Z.to_int z)) as [|a s] eqn:Hs; [done|].
  destruct (Ascii.eqb_spec a "+"%char) as [->|Hne].
  - exfalso. destruct z as [|p|p]; cbn in Hs.
    + discriminate.
    + unfold NilZero.string_of_uint in Hs.
      destruct (Pos.to_uint p); cbn in Hs; discriminate.
    + discriminate.
  - destruct a as [[] [] [] [] [] [] [] []]; try reflexivity.
    by contradict Hne.
Qed.

End StringFacts.

Section RoundTripFacts.
Context `{Floats float}.
Implicit Types (p : @Point float) (s : @Structure float).
Implicit Types (pts : list (option (@Point float))).

Lemma py_get4_0 {A : Type} (a b c d : A) : py_get [a; b; c; d] 0 = Ok a.
Proof. reflexivity. Qed.
Lemma py_get4_1 {A : Type} (a b c d : A) : py_get [a; b; c; d] 1 = Ok b.
Proof. reflexivity. Qed.
Lemma py_get4_2 {A : Type} (a b c d : A) : py_get [a; b; c; d] 2 = Ok c.
Proof. reflexivity. Qed.
Lemma py_get4_3 {A : Type} (a b c d : A) : py_get [a; b; c; d] 3 = Ok d.
Proof. reflexivity. Qed.

Lemma lines_write_lines pts : forall num,
  (forall x : float, token (fstr x)) ->
  lines (write_lines num pts) =
    imap (fun i point => write_line (num + Z.of_nat i) point) pts.
Proof.
  induction pts as [|point pts IH]; intros num Hfstr; [done|].
  cbn [write_lines imap].
  assert (Hline : exists body, write_line num point = body +:+ nl /\
                    no_newline body = true).
  { unfold write_line. destruct point as [p|].
    - destruct (pos p) as [[x y] z]. eexists. split; [reflexivity|].
      apply join_token; [apply str_int_token|]. repeat constructor; apply Hfstr.
    - eexists. split; [reflexivity|].
      apply join_token; [apply str_int_token|]. by repeat constructor. }
  destruct Hline as (body & Hbody & Hnl).
  rewrite Z.add_0_r. rewrite Hbody at 1. rewrite app_assoc_s.
  rewrite (lines_app_nl body _ Hnl), <- Hbody. f_equal.
  rewrite (IH (num + 1) Hfstr). apply imap_ext. intros i point' _. cbn.
  f_equal. lia.
Qed.

Lemma read_rows_written pts : forall num index,
  (forall x : float, token (fstr x)) ->
  (forall x : float, is_Some (fparse (fstr x))) ->
  Forall (fun p => fstr (pos p).1.1 <> "nan") (omap id pts) ->
  read_rows (imap (fun i point => write_line (num + Z.of_nat i) point) pts) index
    = Ok (rows_of num index pts).
Proof.
  induction pts as [|point pts IH]; intros num index Hfstr Hparse Hnan; [done|].
  cbn [imap read_rows rows_of]. rewrite Z.add_0_r.
  assert (Hrest : forall index',
            Forall (fun p => fstr (pos p).1.1 <> "nan") (omap id pts) ->
            read_rows (imap ((fun i point => write_line (num + Z.of_nat i) point) ∘ S) pts)
              index' = Ok (rows_of (num + 1) index' pts)).
  { intros index' Hnan'. rewrite <- (IH (num + 1) index' Hfstr Hparse Hnan').
    f_equal. apply imap_ext. intros i point' _. cbn. f_equal. lia. }
  destruct point as [p|].
  - cbn in Hnan. apply Forall_cons in Hnan as [Hnan1 Hnan].
    rewrite (Hrest (index + 1) Hnan).
    unfold write_line. destruct (pos p) as [[x y] z] eqn:Hpos. cbn in Hnan1.
    rewrite split_strip_line
      by (try apply str_int_token; repeat constructor; apply Hfstr).
    rewrite py_get4_0, py_get4_1, py_get4_2, py_get4_3. cbn [rbind].
    rewrite py_int_str_int. cbn [rbind].
    rewrite bool_decide_false by exact Hnan1.
    unfold py_float.
    destruct (Hparse x) as [x' Hx], (Hparse y) as [y' Hy], (Hparse z) as [z' Hz].
    rewrite Hx, Hy, Hz. cbn [rbind].
    unfold reread_pos, reread. cbn. by rewrite Hx, Hy, Hz.
  - rewrite (Hrest index Hnan). unfold write_line.
    rewrite split_strip_line by (try apply str_int_token; by repeat constructor).
    rewrite py_get4_0, py_get4_1. cbn [rbind].
    rewrite py_int_str_int. cbn [rbind].
    rewrite bool_decide_true by reflexivity. reflexivity.
Qed.

Lemma rows_of_length pts num index : length (rows_of num index pts) = length pts.
Proof.
  revert num index. induction pts as [|[p|] pts IH]; intros num index; cbn;
    [done|..]; by rewrite IH.
Qed.

Lemma rows_of_last pts num index :
  pts <> [] ->
  exists slot, last (rows_of num index pts)
               = Some (num + Z.of_nat (length pts) - 1, slot).
Proof.
  revert num index. induction pts as [|point pts IH]; intros num index Hne; [done|].
  destruct pts as [|point' pts].
  - destruct point as [p|]; eexists; cbn; f_equal; f_equal; lia.
  - assert (Hlast : forall index', exists slot,
              last (rows_of (num + 1) index' (point' :: pts))
              = Some (num + Z.of_nat (length (point :: point' :: pts)) - 1, slot)).
    { intros index'. destruct (IH (num + 1) index' ltac:(done)) as [slot Hslot].
      exists slot. rewrite Hslot. f_equal. f_equal. cbn [length]. lia. }
    destruct point as [p|]; cbn [rows_of].
    + destruct (Hlast (index + 1)) as [slot Hslot]. exists slot.
      rewrite <- Hslot. by destruct point'.
    + destruct (Hlast index) as [slot Hslot]. exists slot.
      rewrite <- Hslot. by destruct point'.
Qed.

(** The slots read back: an empty slot is empty, and a point comes back with
    its position re-read, the number of its line and its rank as index. *)
Lemma rows_of_lookup c pts : forall num index i,
  (row_point c <$> rows_of num index pts) !! i =
    match pts !! i with
    | Some (Some p) =>
        Some (Some (mkPoint (reread_pos (pos p)) (num + Z.of_nat i) c
                      (index + Z.of_nat (length (omap id (take i pts))))))
    | Some None => Some None
    | None => None
    end.
Proof.
  induction pts as [|[p|] pts IH]; intros num index [|i]; cbn; try done.
  - unfold row_point. cbn. by rewrite !Z.add_0_r.
  - rewrite IH. destruct (pts !! i) as [[q|]|]; try done.
    do 3 f_equal; lia.
  - rewrite IH. destruct (pts !! i) as [[q|]|]; try done.
    do 3 f_equal; lia.
Qed.

End RoundTripFacts.

Section ReadWrittenFile.
Context `{Floats float}.
Implicit Types (p : @Point float) (s : @Structure float).

(** Reading the file that [write] produced from [s]. *)
Lemma structure_from_file_write s :
  (forall x : float, token (fstr x)) ->
  (forall x : float, is_Some (fparse (fstr x))) ->
  no_newline (name (chrom s)) = true ->
  strip (name (chrom s)) = name (chrom s) ->
  points s <> [] ->
  Forall (fun p => fstr (pos p).1.1 <> "nan") (getPoints s) ->
  let c := mkChrom (minPos (chrom s))
             (minPos (chrom s) +
              res (chrom s) * (offset s + Z.of_nat (length (points s)) - 1))
             (res (chrom s)) (name (chrom s)) None in
  structure_from_file (write s)
    = Ok (mkStructure (row_point c <$> rows_of (offset s) 0 (points s)) [] c 0).
Proof.
  intros Hfstr Hparse Hnl Hname Hne Hnan c.
  unfold structure_from_file, write.
  rewrite (lines_app_nl _ _ Hnl).
  rewrite (lines_app_nl (str_int (res (chrom s))))
    by apply no_space_no_newline, str_int_token.
  rewrite (lines_app_nl (str_int (minPos (chrom s))))
    by apply no_space_no_newline, str_int_token.
  cbn [readline].
  rewrite !strip_nl, Hname, !(strip_token (str_int _)) by apply str_int_token.
  rewrite !py_int_str_int. cbn [rbind].
  rewrite (lines_write_lines _ _ Hfstr).
  rewrite (read_rows_written _ _ _ Hfstr Hparse Hnan). cbn [rbind].
  destruct (rows_of_last (points s) (offset s) 0 Hne) as [slot ->].
  reflexivity.
Qed.

End ReadWrittenFile.

(** C6, as the code has it: for a structure with at least one slot, whose
    chromosome name has no newline and no white space at its ends, and none
    of whose points has a first coordinate printed as "nan", reading back the
    file that [write] wrote succeeds; the structure read has the same name,
    resolution and minPos, its maxPos is [minPos + res * lastPointNum] where
    [lastPointNum = offset + len(points) - 1] numbers the last line, empty
    slots are read back as empty, and a point is read back in its slot with a
    position close to the one written, provided the text that [str] prints
    for a float is one word that [float] parses to a float close to it. *)
Theorem write_read_roundtrip `{Floats float} (approx : float -> float -> Prop)
    (s : Structure) :
  (forall x : float, token (fstr x)) ->
  (forall x : float, exists y, fparse (fstr x) = Some y /\ approx x y) ->
  no_newline (name (chrom s)) = true ->
  strip (name (chrom s)) = name (chrom s) ->
  points s <> [] ->
  Forall (fun p => fstr (pos p).1.1 <> "nan") (getPoints s) ->
  exists s', structure_from_file (write s) = Ok s' /\
    name (chrom s') = name (chrom s) /\
    res (chrom s') = res (chrom s) /\
    minPos (chrom s') = minPos (chrom s) /\
    maxPos (chrom s') =
      minPos (chrom s) +
      res (chrom s) * (offset s + Z.of_nat (length (points s)) - 1) /\
    length (points s') = length (points s) /\
    (forall i, points s !! i = Some None -> points s' !! i = Some None) /\
    (forall i p, points s !! i = Some (Some p) ->
       exists p', points s' !! i = Some (Some p') /\
         close_pos approx (pos p) (pos p') /\
         num p' = offset s + Z.of_nat i).
Proof.
  intros Hfstr Happrox Hnl Hname Hne Hnan.
  assert (Hparse : forall x : float, is_Some (fparse (fstr x))).
  { intros x. destruct (Happrox x) as (y & -> & _). eauto. }
  assert (Hclose : forall x : float, approx x (reread x)).
  { intros x. unfold reread. by destruct (Happrox x) as (y & -> & Hy). }
  eexists. split; [by apply structure_from_file_write|].
  cbn [chrom points name res minPos maxPos].
  repeat (split; [reflexivity|]).
  split; [by rewrite length_fmap, rows_of_length|]. split.
  - intros i Hi. by rewrite rows_of_lookup, Hi.
  - intros i p Hp. rewrite rows_of_lookup, Hp.
    eexists. split; [reflexivity|]. cbn. split; [|reflexivity].
    unfold close_pos, reread_pos. cbn. auto.
Qed.

Lemma write_read_roundtrip_witness :
  exists s', @structure_from_file Z int_floats (@write Z int_floats Sample.three_points)
             = Ok s' /\
    name (chrom s') = "chr1" /\ res (chrom s') = 1000 /\ minPos (chrom s') = 1000 /\
    maxPos (chrom s') = 5000 /\
    points s' !! 1%nat = Some None /\
    exists p', points s' !! 2%nat = Some (Some p') /\ pos p' = (0, 0, 0) /\ num p' = 2.
Proof.
  destruct (@write_read_roundtrip Z int_floats eq Sample.three_points)
    as (s' & Hread & Hname & Hres & Hmin & Hmax & _ & Hempty & Hpoint).
  - apply str_int_token.
  - intros x. exists x. split; [|reflexivity]. cbn. by rewrite py_int_str_int.
  - reflexivity.
  - reflexivity.
  - discriminate.
  - repeat constructor; by vm_compute.
  - exists s'. split; [exact Hread|].
    split; [exact Hname|]. split; [exact Hres|]. split; [exact Hmin|].
    split; [exact Hmax|]. split; [by apply Hempty|].
    destruct (Hpoint 2%nat (Sample.point 2 1) eq_refl) as (p' & Hp' & Hclose & Hnum).
    exists p'. split; [exact Hp'|]. split; [|exact Hnum].
    destruct Hclose as (Hx & Hy & Hz). cbn in Hx, Hy, Hz.
    destruct (pos p') as [[x y] z]. cbn in Hx, Hy, Hz. by subst.
Defined.

(** C6 as stated fails on some structures: for a structure without slots the
    file has no data line and reading it raises (the variable [num] is
    unbound); a chromosome name with white space at an end is read back
    stripped; a point whose first coordinate is NaN is written as an empty
    slot. *)
Lemma write_read_not_every_structure :
  @structure_from_file Z int_floats (@write Z int_floats Sample.no_slots)
    = Raise UnboundLocalError /\
  (exists s', @structure_from_file Z int_floats (@write Z int_floats Sample.spaced_name)
              = Ok s' /\
     name (chrom Sample.spaced_name) = "chr1 " /\ name (chrom s') = "chr1") /\
  (exists s', @structure_from_file (option Z) nan_floats
                (@write (option Z) nan_floats Sample.nan_point) = Ok s' /\
     length (getPoints Sample.nan_point) = 1%nat /\ points s' = [None]).
Proof.
  split; [by vm_compute|]. split; eexists; (split; [by vm_compute|]); by vm_compute.
Qed.

(** C5, as the code has it.  [structureFromBed] with a positive
    resolution, a range [[start, end]] within the chromosome and the offset
    that is the point number of [start] ([start = minPos + offset * res])
    returns a structure that satisfies the slot invariant.
    [structure_from_file] reads back the file written from a structure that
    has at least one slot, a chromosome name without newline that [strip]
    leaves as it is, floats that print without white space and parse, and no
    point whose first coordinate prints as nan; it numbers the point of slot
    [i] by [i + offset of the structure written] and gives the offset 0: the
    structure read satisfies the invariant when the structure written has
    the offset 0.  [setstructures], when there is a child, every child has a
    point and no point number is negative, stores every point in the slot
    of its number and keeps the offset of the parent: the result satisfies
    the invariant when the parent has the offset 0. *)
Theorem constructors_slot_inv `{Floats float} :
  (forall (path : list Contact) (chrom0 : option ChromParameters)
          (start end_ : option Z) (off : Z) (c : ChromParameters),
     match chrom0 with None => chromFromBed path | Some c => Ok c end = Ok c ->
     0 < res c ->
     minPos c <= default (minPos c) start ->
     default (minPos c) start <= default (maxPos c) end_ ->
     default (maxPos c) end_ <= maxPos c ->
     default (minPos c) start = minPos c + off * res c ->
     exists s, structureFromBed path chrom0 start end_ off = Ok s /\
       offset s = off /\ slot_inv s) /\
  (forall s : Structure,
     (forall x : float, token (fstr x)) ->
     (forall x : float, is_Some (fparse (fstr x))) ->
     no_newline (name (chrom s)) = true ->
     strip (name (chrom s)) = name (chrom s) ->
     points s <> [] ->
     Forall (fun p => fstr (pos p).1.1 <> "nan") (getPoints s) ->
     exists s', structure_from_file (write s) = Ok s' /\
       offset s' = 0 /\
       (forall i p, points s' !! i = Some (Some p) ->
          num p = Z.of_nat i + offset s) /\
       (offset s = 0 -> slot_inv s')) /\
  (forall (self : Structure) (strs : list Structure),
     strs <> [] ->
     (forall s : @Structure float, s ∈ strs -> getPointNums s <> []) ->
     (forall (s : @Structure float) (p : @Point float),
        s ∈ strs -> p ∈ getPoints s -> 0 <= num p) ->
     exists s', setstructures self strs = Ok s' /\
       offset s' = offset self /\
       (forall i p, points s' !! i = Some (Some p) -> num p = Z.of_nat i) /\
       (offset self = 0 -> slot_inv s')).
Proof.
  split; [|split].
  - intros path chrom0 start end_ off c Hc Hres Hstart Horder Hend Hoff.
    destruct (structureFromBed_valid path chrom0 start end_ off c
                Hc Hres Hstart Horder Hend Hoff)
      as (s & Hrun & _ & Hoffset & Hinv & _).
    eauto.
  - intros s Hfstr Hparse Hnl Hname Hne Hnan.
    eexists. split; [by apply structure_from_file_write|].
    cbn [offset points]. split; [reflexivity|].
    assert (Hnum : forall i p,
              (row_point
                 (mkChrom (minPos (chrom s))
                    (minPos (chrom s) +
                     res (chrom s) * (offset s + Z.of_nat (length (points s)) - 1))
                    (res (chrom s)) (name (chrom s)) None)
                 <$> rows_of (offset s) 0 (points s)) !! i = Some (Some p) ->
              num p = Z.of_nat i + offset s).
    { intros i p Hp. rewrite rows_of_lookup in Hp.
      destruct (points s !! i) as [[q|]|]; try discriminate.
      inversion Hp; subst p. cbn. lia. }
    split; [exact Hnum|].
    intros Hoff i p Hp. cbn [points offset] in *. rewrite (Hnum i p Hp). lia.
  - intros self strs Hne Hpoints Hnonneg.
    destruct (setstructures_valid self strs Hne Hpoints Hnonneg)
      as (s' & Hrun & _ & _ & Hoffset & Hslots).
    exists s'. split; [exact Hrun|]. split; [exact Hoffset|].
    split; [exact Hslots|].
    intros Hoff i p Hp. rewrite (Hslots i p Hp), Hoffset, Hoff. lia.
Qed.

Lemma constructors_slot_inv_witness :
  (exists s p0 p2, @structureFromBed Z int_floats
                     [Sample.contact_from 3000 5000 3; Sample.contact 3000 1]
                     (Some Sample.chr1) (Some 3000) (Some 5000) 2 = Ok s /\
     offset s = 2 /\ slot_inv s /\
     points s !! 0%nat = Some (Some p0) /\ num p0 = 0 + 2 /\
     points s !! 2%nat = Some (Some p2) /\ num p2 = 2 + 2) /\
  (exists s', @structure_from_file Z int_floats
                (@write Z int_floats Sample.three_points) = Ok s' /\
     offset s' = 0 /\ slot_inv s') /\
  (exists s', @setstructures Z Sample.no_slots [Sample.three_points] = Ok s' /\
     offset s' = 0 /\ slot_inv s').
Proof.
  destruct (@constructors_slot_inv Z int_floats) as (Hbed & Hfile & Hset).
  split; [|split].
  - destruct (Hbed [Sample.contact_from 3000 5000 3; Sample.contact 3000 1]
                (Some Sample.chr1) (Some 3000) (Some 5000) 2 Sample.chr1)
      as (s & Hs & Hoff & Hinv); try (cbn; (reflexivity || lia)).
    pose proof Hs as Hrun. vm_compute in Hrun. injection Hrun as Hrun.
    exists s, (Sample.point 2 0), (Sample.point 4 1).
    split; [exact Hs|]. split; [exact Hoff|]. split; [exact Hinv|].
    rewrite <- Hrun. repeat split; reflexivity.
  - destruct (Hfile Sample.three_points) as (s' & Hread & Hoff & _ & Hinv).
    + apply str_int_token.
    + intros x. exists x. cbn. by rewrite py_int_str_int.
    + reflexivity.
    + reflexivity.
    + discriminate.
    + repeat constructor; by vm_compute.
    + exists s'. split; [exact Hread|]. split; [exact Hoff|]. by apply Hinv.
  - destruct (Hset Sample.no_slots [Sample.three_points]) as (s' & Hrun & Hoff & _ & Hinv).
    + discriminate.
    + intros s Hs. apply list_elem_of_singleton in Hs as ->. by vm_compute.
    + intros s p Hs Hp. apply list_elem_of_singleton in Hs as ->.
      vm_compute in Hp.
      repeat (apply elem_of_cons in Hp as [->|Hp]; [by vm_compute|]).
      by apply not_elem_of_nil in Hp.
    + exists s'. split; [exact Hrun|]. split; [exact Hoff|]. by apply Hinv.
Defined.

(** C5 as stated fails.  The file written from the substructure of offset 2
    with the points 2, 3 and 5 is read back with the offset 0 and the point 2
    in slot 0.  Composition into a parent of offset 1 stores point 0 in
    slot 0. *)
Lemma constructors_break_slot_inv :
  (exists s' p, @structure_from_file Z int_floats
                  (@write Z int_floats Sample.shifted) = Ok s' /\
     offset s' = 0 /\ points s' !! 0%nat = Some (Some p) /\ num p = 2 /\
     ~ slot_inv s') /\
  (exists s' p, @setstructures Z Sample.parent [Sample.three_points] = Ok s' /\
     offset s' = 1 /\ points s' !! 0%nat = Some (Some p) /\ num p = 0 /\
     ~ slot_inv s').
Proof.
  split.
  - eexists _, _. split; [by vm_compute|]. split; [reflexivity|].
    split; [reflexivity|]. split; [reflexivity|].
    intros Hinv. by specialize (Hinv 0%nat _ eq_refl).
  - eexists _, _. split; [by vm_compute|]. split; [reflexivity|].
    split; [reflexivity|]. split; [reflexivity|].
    intros Hinv. by specialize (Hinv 0%nat _ eq_refl).
Qed.

Section ConsensusFacts.
Context `{Floats float}.
Implicit Types (p : @Point float) (s : @Structure float).
Implicit Types (strs : list (@Structure float)) (d : gmap Z nat).









End ConsensusFacts.

Section RewriteFacts.
Context `{Floats float}.
Implicit Types (p : @Point float) (s : @Structure float).
Implicit Types (pts : list (option (@Point float))) (consensus : list Z).




(** The new point number of a consensus coordinate: the difference of the
    old point numbers. *)
Lemma new_point_num s p0 p :
  0 < res (chrom s) ->
  (coord_of s p - coord_of s p0) / res (chrom s) = num p - num p0.
Proof.
  intros Hres. unfold coord_of.
  replace (minPos (chrom s) + res (chrom s) * num p -
           (minPos (chrom s) + res (chrom s) * num p0))
    with ((num p - num p0) * res (chrom s)) by lia.
  apply Z.div_mul. lia.
Qed.



End RewriteFacts.

Section RewriteStructureFacts.
Context `{Floats float}.
Implicit Types (p : @Point float) (s : @Structure float).
Implicit Types (pts : list (option (@Point float))) (consensus : list Z).





End RewriteStructureFacts.

Section MakeCompatibleFacts.
Context `{Floats float}.
Implicit Types (p : @Point float) (s : @Structure float).
Implicit Types (pts : list (option (@Point float))) (consensus : list Z).






End MakeCompatibleFacts.

Section IdempotenceFacts.
Context `{Floats float}.
Implicit Types (p : @Point float) (s : @Structure float).
Implicit Types (consensus : list Z).




End IdempotenceFacts.

Section MakeCompatibleLoop.
Context `{Floats float}.
Implicit Types (p : @Point float) (s : @Structure float).
Implicit Types (heap : list (@Structure float)) (consensus : list Z).


End MakeCompatibleLoop.




(* ================================================================== *)
(** * Further properties of the chromosome parameters *)

(** X1 ([getLength], [getPointNum]): for a positive resolution and
    [minPos <= maxPos], [getLength] returns a positive number of loci, the
    point number of [maxPos] is that number minus one, and every point
    number that [getPointNum] returns lies in [0, getLength). *)
Theorem getLength_bounds_point_numbers (c : ChromParameters) :
  0 < res c -> minPos c <= maxPos c ->
  exists len, getLength c = Ok len /\ 0 < len /\
    getPointNum c (maxPos c) = Ok (Some (len - 1)) /\
    forall g n, getPointNum c g = Ok (Some n) -> 0 <= n < len.
Proof.
  intros Hres Hle. exists ((maxPos c - minPos c) / res c + 1).
  assert (0 <= (maxPos c - minPos c) / res c) by (apply Z.div_pos; lia).
  split; [|split; [|split]].
  - unfold getLength. rewrite py_div_pos by done. reflexivity.
  - lia.
  - rewrite getPointNum_inside by lia. do 2 f_equal. lia.
  - intros g n Hg. unfold getPointNum in Hg.
    destruct (g <? minPos c) eqn:E1; [discriminate|].
    destruct (g >? maxPos c) eqn:E2; [discriminate|].
    cbn in Hg. rewrite py_div_pos in Hg by done. cbn in Hg.
    injection Hg as <-.
    apply Z.ltb_ge in E1. rewrite Z.gtb_ltb in E2. apply Z.ltb_ge in E2.
    split; [apply Z.div_pos; lia|].
    assert ((g - minPos c) / res c <= (maxPos c - minPos c) / res c)
      by (apply Z.div_le_mono; lia).
    lia.
Qed.

Lemma getLength_bounds_point_numbers_witness :
  exists len, getLength Sample.chr1 = Ok len /\ 0 < len /\
    getPointNum Sample.chr1 (maxPos Sample.chr1) = Ok (Some (len - 1)) /\
    forall g n, getPointNum Sample.chr1 g = Ok (Some n) -> 0 <= n < len.
Proof.
  apply (getLength_bounds_point_numbers Sample.chr1); cbn; lia.
Defined.



(** X3 ([reduceRes]): reducing the resolution by [a] and then by [b] gives
    the chromosome parameters that reducing by [a * b] gives, for a positive
    resolution and positive ratios. *)
Theorem reduceRes_compose (c : ChromParameters) (a b : Z) :
  0 < res c -> 0 < a -> 0 < b ->
  exists c1 c2, reduceRes c a = Ok c1 /\ reduceRes c1 b = Ok c2 /\
    reduceRes c (a * b) = Ok c2.
Proof.
  intros Hres Ha Hb.
  assert (0 < res c * a) as HA by nia.
  assert (0 < res c * a * b) as HAB by nia.
  assert (forall m, m / (res c * a) * (res c * a) / (res c * a * b)
                    = m / (res c * (a * b))) as Hq.
  { intros m. rewrite <- (Z.div_div _ (res c * a) b) by lia.
    rewrite Z.div_mul by lia. rewrite Z.div_div by lia.
    f_equal. lia. }
  eexists _, _. split; [|split].
  - unfold reduceRes. rewrite !py_div_pos by done. cbn. reflexivity.
  - unfold reduceRes. cbn [res minPos maxPos name size].
    rewrite !py_div_pos by done. cbn. reflexivity.
  - assert (0 < res c * (a * b)) as HAB' by (rewrite Z.mul_assoc; exact HAB).
    unfold reduceRes. rewrite !py_div_pos by done. cbn.
    rewrite !Hq. replace (res c * a * b) with (res c * (a * b)) by lia.
    reflexivity.
Qed.

Lemma reduceRes_compose_witness :
  exists c1 c2, reduceRes (mkChrom 1000 7000 1000 "chr1" (Some 3)) 2 = Ok c1 /\
    reduceRes c1 2 = Ok c2 /\
    reduceRes (mkChrom 1000 7000 1000 "chr1" (Some 3)) (2 * 2) = Ok c2.
Proof.
  apply (reduceRes_compose (mkChrom 1000 7000 1000 "chr1" (Some 3)) 2 2); cbn; lia.
Defined.

(* ================================================================== *)
(** * Further properties of the scans of a contact file *)

Section ScanFacts.
Context `{Floats float}.
Implicit Types (line r : @Contact float) (path rest l : list (@Contact float)).

(** The bounds that [chromFromBed] tracks over the records [l]. *)
Lemma scan_bounds_fold l : forall (k : nat) (st : scan_state),
  scan_bounds (foldl chromFromBed_step st (zip (Z.of_nat <$> seq k (length l)) l))
  = foldl (fun b line => track (track b (field1 line)) (field4 line))
      (scan_bounds st) l.
Proof.
  induction l as [|r l IH]; intros k st; [reflexivity|].
  cbn [length seq fmap list_fmap zip zip_with foldl].
  rewrite IH. reflexivity.
Qed.

Lemma track_fst (b : Z * Z) (p : Z) : (track b p).1 = Z.min b.1 p.
Proof.
  destruct b as [mn mx]. unfold track. cbn.
  destruct (Z.ltb_spec p mn); [cbn; lia|].
  destruct (p >? mx); cbn; lia.
Qed.

Lemma track_snd (b : Z * Z) (p : Z) : (track b p).2 = b.2 \/ (track b p).2 = p.
Proof.
  destruct b as [mn mx]. unfold track.
  destruct (p <? mn); [left; reflexivity|].
  destruct (p >? mx); [right|left]; reflexivity.
Qed.

Lemma bounds_fold_min l : forall (b : Z * Z),
  let b' := foldl (fun b line => track (track b (field1 line)) (field4 line)) b l in
  b'.1 <= b.1 /\
  (forall line, line ∈ l -> b'.1 <= field1 line /\ b'.1 <= field4 line) /\
  (b'.1 = b.1 \/ exists line, line ∈ l /\ (b'.1 = field1 line \/ b'.1 = field4 line)).
Proof.
  induction l as [|r l IH]; intros b; cbn zeta.
  - cbn. split; [lia|]. split; [|by left].
    intros line Hin. by apply not_elem_of_nil in Hin.
  - cbn [foldl].
    destruct (IH (track (track b (field1 r)) (field4 r))) as (IH1 & IH2 & IH3).
    cbn zeta in IH1, IH2, IH3.
    rewrite !track_fst in IH1, IH3.
    split; [lia|]. split.
    + intros line [->|Hin]%elem_of_cons; [lia|]. by apply IH2.
    + destruct IH3 as [IH3|(line & Hin & IH3)].
      * destruct (Z.min_spec (Z.min b.1 (field1 r)) (field4 r)) as [[_ Hm]|[_ Hm]];
          [destruct (Z.min_spec b.1 (field1 r)) as [[_ Hm']|[_ Hm']]|].
        -- left. lia.
        -- right. exists r. split; [apply list_elem_of_here|]. left. lia.
        -- right. exists r. split; [apply list_elem_of_here|]. right. lia.
      * right. exists line. split; [by apply list_elem_of_further|exact IH3].
Qed.

(** The state of the scan after a file that is not empty. *)
Lemma chromFromBed_scan r rest :
  let st := foldl chromFromBed_step (mkScan (float_info_max, 0) None None)
              (enumerate (r :: rest)) in
  scan_first st = Some (field0 r, field2 r - field1 r) /\
  scan_i st = Some (Z.of_nat (length rest)) /\
  scan_bounds st =
    foldl (fun b line => track (track b (field1 line)) (field4 line))
      (float_info_max, 0) (r :: rest).
Proof.
  cbn zeta. unfold enumerate. split; [|split].
  - cbn [length seq fmap list_fmap zip zip_with foldl].
    match goal with |- context [foldl _ ?st0 _] => remember st0 as st eqn:Est end.
    destruct (chromFromBed_scan_tail rest 1 st ltac:(lia)) as [H1 _].
    cbn zeta in H1. rewrite H1. subst st. reflexivity.
  - cbn [length seq fmap list_fmap zip zip_with foldl].
    match goal with |- context [foldl _ ?st0 _] => remember st0 as st eqn:Est end.
    destruct (chromFromBed_scan_tail rest 1 st ltac:(lia)) as [_ H2].
    cbn zeta in H2. rewrite H2. subst st.
    destruct rest; cbn [scan_i chromFromBed_step length]; f_equal; lia.
  - apply (scan_bounds_fold (r :: rest) 0).
Qed.

(** The result of [chromFromBed] on a file that is not empty. *)
Lemma chromFromBed_run r rest :
  let b := foldl (fun b line => track (track b (field1 line)) (field4 line))
             (float_info_max, 0) (r :: rest) in
  let rs := field2 r - field1 r in
  chromFromBed (r :: rest) =
    if rs =? 0 then Raise ZeroDivisionError
    else Ok (mkChrom (b.1 / rs * rs) (ceil_div b.2 rs * rs) rs (field0 r)
               (Some (Z.of_nat (length rest)))).
Proof.
  cbn zeta. destruct (chromFromBed_scan r rest) as (H1 & H2 & H3).
  cbn zeta in H1, H2, H3. unfold chromFromBed.
  destruct (foldl chromFromBed_step _ _) as [b first i].
  cbn [scan_first scan_i scan_bounds] in *. subst first i b.
  destruct (foldl _ (float_info_max, 0) (r :: rest)) as [mn mx].
  unfold floor_fdiv, ceil_fdiv, py_div.
  destruct (field2 r - field1 r =? 0); reflexivity.
Qed.

Lemma basicParamsFromBed_scan_tail l : forall (k : nat) (st : option Z * option Z),
  (0 < k)%nat ->
  foldl basicParamsFromBed_step st (zip (Z.of_nat <$> seq k (length l)) l)
  = (match l with
     | [] => st.1
     | _ => Some (Z.of_nat (k + length l) - 1)
     end, st.2).
Proof.
  induction l as [|r l IH]; intros k st Hk; [by destruct st|].
  cbn [length seq fmap list_fmap zip zip_with foldl].
  rewrite IH by lia. cbn [basicParamsFromBed_step fst snd].
  destruct (Z.eqb_spec (Z.of_nat k) 0); [lia|].
  f_equal. destruct l; cbn [length]; f_equal; lia.
Qed.

Lemma basicParamsFromBed_run r rest :
  basicParamsFromBed (r :: rest)
  = Ok (Z.of_nat (length rest), field2 r - field1 r).
Proof.
  unfold basicParamsFromBed, enumerate.
  cbn [length seq fmap list_fmap zip zip_with foldl].
  rewrite basicParamsFromBed_scan_tail by lia.
  cbn [basicParamsFromBed_step fst snd Z.of_nat Z.eqb].
  destruct rest; cbn [length]; do 2 f_equal; lia.
Qed.

End ScanFacts.

(** X4 ([chromFromBed]): an empty file raises UnboundLocalError.  On a file
    whose positions and resolution are exact as floats (below 2^53 in
    absolute value), equal fields 1 and 2 of the first record raise
    ZeroDivisionError, and otherwise [chromFromBed] returns chromosome
    parameters whose resolution and name come from the first record, whose
    size is the number of records minus one, and whose [minPos] and [maxPos]
    are multiples of the resolution. *)
Theorem chromFromBed_outcomes `{Floats float} :
  chromFromBed (@nil (@Contact float)) = Raise UnboundLocalError /\
  forall (r : @Contact float) (rest : list (@Contact float)),
    exact_file (r :: rest) ->
    if decide (field2 r = field1 r)
    then chromFromBed (r :: rest) = Raise ZeroDivisionError
    else exists c, chromFromBed (r :: rest) = Ok c /\
           res c = field2 r - field1 r /\
           name c = field0 r /\
           size c = Some (Z.of_nat (length rest)) /\
           (exists q, minPos c = q * res c) /\
           (exists q, maxPos c = q * res c).
Proof.
  split; [reflexivity|]. intros r rest _.
  rewrite chromFromBed_run.
  destruct (decide (field2 r = field1 r)) as [E|E].
  - rewrite (proj2 (Z.eqb_eq _ _)) by lia. reflexivity.
  - rewrite (proj2 (Z.eqb_neq _ _)) by lia.
    eexists. split; [reflexivity|]. cbn.
    repeat split; eauto.
Qed.

Lemma chromFromBed_outcomes_witness :
  exists c, chromFromBed [@mkContact Z "chr1" 2500 3500 1700 3;
                          @mkContact Z "chr1" 4500 5500 9100 1] = Ok c /\
    res c = 1000 /\ name c = "chr1" /\ size c = Some 1.
Proof.
  pose proof (proj2 (@chromFromBed_outcomes Z int_floats)
                (@mkContact Z "chr1" 2500 3500 1700 3)
                [@mkContact Z "chr1" 4500 5500 9100 1]) as Hrun.
  destruct (decide _) as [E|_] in Hrun; [discriminate E|].
  destruct Hrun as (c & Hc & Hres & Hname & Hsize & _).
  - split.
    + intros line Hin.
      repeat (apply elem_of_cons in Hin as [->|Hin]; [by vm_compute|]).
      by apply not_elem_of_nil in Hin.
    + intros r [= <-]. by vm_compute.
  - exists c. split; [exact Hc|]. split; [exact Hres|]. by split.
Defined.

(** X5 ([chromFromBed]): on a file whose positions and resolution are exact
    as floats (below 2^53 in absolute value), with a positive resolution,
    [minPos] is a multiple of the resolution that no position of the file is
    below, and some position of the file is less than one resolution step
    above it. *)
Theorem chromFromBed_minPos `{Floats float} (r : @Contact float)
    (rest : list (@Contact float)) :
  exact_file (r :: rest) ->
  0 < field2 r - field1 r ->
  exists c, chromFromBed (r :: rest) = Ok c /\
    (exists q, minPos c = q * res c) /\
    (forall line, line ∈ r :: rest ->
       minPos c <= field1 line /\ minPos c <= field4 line) /\
    (exists line, line ∈ r :: rest /\
       (field1 line < minPos c + res c \/ field4 line < minPos c + res c)).
Proof.
  intros [Hexact _] Hres. rewrite chromFromBed_run.
  rewrite (proj2 (Z.eqb_neq _ _)) by lia.
  eexists. split; [reflexivity|]. cbn [minPos res].
  destruct (bounds_fold_min (r :: rest) (float_info_max, 0)) as (B1 & B2 & B3).
  cbn zeta in B1, B2, B3.
  set (b := foldl _ (float_info_max, 0) (r :: rest)) in *.
  pose proof (floor_multiple b.1 _ Hres) as Hfl.
  split; [eauto|]. split.
  - intros line Hin. destruct (B2 line Hin). lia.
  - destruct B3 as [B3|(line & Hin & B3)].
    + destruct (B2 r (list_elem_of_here _ _)) as [B2r _].
      destruct (Hexact r (list_elem_of_here _ _)) as [Hr _].
      unfold exact_float in Hr.
      assert (2 ^ 53 < float_info_max) by (by vm_compute).
      cbn [fst] in B3. lia.
    + exists line. split; [exact Hin|]. lia.
Qed.

Lemma chromFromBed_minPos_witness :
  exists c, chromFromBed [@mkContact Z "chr1" 2500 3500 1700 3] = Ok c /\
    (exists q, minPos c = q * res c) /\
    (forall line, line ∈ [@mkContact Z "chr1" 2500 3500 1700 3] ->
       minPos c <= field1 line /\ minPos c <= field4 line) /\
    (exists line, line ∈ [@mkContact Z "chr1" 2500 3500 1700 3] /\
       (field1 line < minPos c + res c \/ field4 line < minPos c + res c)).
Proof.
  apply (@chromFromBed_minPos Z int_floats (@mkContact Z "chr1" 2500 3500 1700 3) []).
  - split.
    + intros line Hin. apply list_elem_of_singleton in Hin as ->. by vm_compute.
    + intros r [= <-]. by vm_compute.
  - cbn. lia.
Defined.

(** X6 ([basicParamsFromBed]): an empty file raises UnboundLocalError; any
    other file gives the number of records minus one and the difference of
    the fields 2 and 1 of the first record, which are the size and the
    resolution of [chromFromBed] whenever that returns. *)
Theorem basicParamsFromBed_agrees `{Floats float} :
  basicParamsFromBed (@nil (@Contact float)) = Raise UnboundLocalError /\
  (forall (r : @Contact float) (rest : list (@Contact float)),
     basicParamsFromBed (r :: rest)
     = Ok (Z.of_nat (length rest), field2 r - field1 r)) /\
  (forall (path : list (@Contact float)) (c : ChromParameters),
     chromFromBed path = Ok c ->
     exists i, size c = Some i /\ basicParamsFromBed path = Ok (i, res c)).
Proof.
  split; [reflexivity|]. split; [apply basicParamsFromBed_run|].
  intros [|r rest] c Hc; [discriminate|].
  rewrite chromFromBed_run in Hc.
  destruct (field2 r - field1 r =? 0); [discriminate|].
  injection Hc as <-. cbn [size res].
  eexists. split; [reflexivity|]. apply basicParamsFromBed_run.
Qed.

(* ================================================================== *)
(** * Further properties of indices and coordinates *)

Section SlotFacts.
Context `{Floats float}.
Implicit Types (p : @Point float) (s : @Structure float).
Implicit Types (pts todo : list (option (@Point float))).
Implicit Types (coords : list (@position float)).

Lemma set_points_same s : set_points s (points s) = s.
Proof. by destruct s. Qed.

(** The slot of the [k]-th point, and the rank of the point of a slot. *)
Lemma omap_lookup_slot {A : Type} (l : list (option A)) : forall (k : nat) (x : A),
  omap id l !! k = Some x ->
  exists j, l !! j = Some (Some x) /\ length (omap id (take j l)) = k.
Proof.
  induction l as [|[a|] l IH]; intros k x Hk; cbn in Hk.
  - discriminate.
  - destruct k as [|k].
    + injection Hk as ->. by exists 0%nat.
    + destruct (IH k x Hk) as (j & Hj & Hlen).
      exists (S j). split; [exact Hj|]. cbn. by rewrite Hlen.
  - destruct (IH k x Hk) as (j & Hj & Hlen).
    exists (S j). split; [exact Hj|]. cbn. exact Hlen.
Qed.


(** A step of the loop of [indexPoints] changes an index and nothing else. *)
Lemma indexPoints_body_index_only off pts (ip : Z * Z) pts' :
  indexPoints_body off pts ip = Ok pts' ->
  without_index <$> pts' = without_index <$> pts.
Proof.
  destruct ip as [i n]. unfold indexPoints_body, py_get, py_set.
  intros Hb.
  destruct (py_idx (length pts) (n - off)) as [k|] eqn:Ek; [|discriminate].
  cbn [rbind] in Hb.
  destruct (pts !! k) as [[p|]|] eqn:Hk; cbn [rbind] in Hb; try discriminate.
  injection Hb as <-.
  rewrite list_fmap_insert. apply list_insert_id.
  rewrite list_lookup_fmap, Hk. reflexivity.
Qed.

Lemma indexPoints_loop_index_only off (l : list (Z * Z)) : forall pts pts',
  for_each (indexPoints_body off) l pts = Ok pts' ->
  without_index <$> pts' = without_index <$> pts.
Proof.
  induction l as [|ip l IH]; intros pts pts' Hl; cbn in Hl.
  - by injection Hl as <-.
  - apply rbind_Ok in Hl as (pts1 & H1 & H2).
    rewrite (IH _ _ H2). by apply indexPoints_body_index_only in H1.
Qed.

Lemma reindex_reindex pts : forall k k', reindex (reindex pts k) k' = reindex pts k'.
Proof.
  induction pts as [|[p|] pts IH]; intros k k'; cbn; [done|..]; by rewrite IH.
Qed.

Lemma reindex_index_only pts : forall k,
  without_index <$> reindex pts k
  = without_index <$> pts.
Proof.
  induction pts as [|[p|] pts IH]; intros k; cbn; [done|..]; by rewrite IH.
Qed.

(** The loop of [setCoords] on the slots [todo] that follow the slots
    [done], the points of [todo] being numbered by their slots. *)
Lemma setCoords_loop_from off todo : forall (done : list (option Point)) coords,
  (forall j p, todo !! j = Some (Some p) ->
     num p = Z.of_nat (length done + j) + off) ->
  for_each (setCoords_body off) (zip coords (num <$> omap id todo)) (done ++ todo)
  = Ok (done ++ repos todo coords).
Proof.
  induction todo as [|[p|] todo IH]; intros done coords Hnum.
  - destruct coords; reflexivity.
  - destruct coords as [|coord coords]; [reflexivity|].
    cbn [omap list_omap id fmap list_fmap zip zip_with for_each repos].
    unfold setCoords_body at 1.
    assert (Hp : num p - off = Z.of_nat (length done))
      by (rewrite (Hnum 0%nat p eq_refl); lia).
    rewrite Hp.
    rewrite (py_get_nonneg _ _ (Some p)) by (by rewrite lookup_app_r, Nat.sub_diag).
    cbn [rbind]. rewrite py_set_nonneg by (rewrite length_app; cbn; lia).
    cbn [rbind].
    rewrite insert_app_r_alt, Nat.sub_diag by lia. cbn [insert list_insert].
    rewrite (cons_middle _ done), (cons_middle _ done (repos _ _)), !app_assoc.
    apply IH. intros j q Hq. rewrite length_app. cbn [length].
    rewrite (Hnum (S j) q Hq). lia.
  - cbn [omap list_omap id repos].
    rewrite (cons_middle _ done), (cons_middle _ done (repos _ _)), !app_assoc.
    apply IH. intros j q Hq. rewrite length_app. cbn [length].
    rewrite (Hnum (S j) q Hq). lia.
Qed.

Lemma repos_length pts : forall coords, length (repos pts coords) = length pts.
Proof.
  induction pts as [|[p|] pts IH]; intros [|coord coords]; cbn; try done;
    by rewrite IH.
Qed.

Lemma repos_pos pts : forall coords,
  pos <$> omap id (repos pts coords)
  = take (length (omap id pts)) coords ++ drop (length coords) (pos <$> omap id pts).
Proof.
  induction pts as [|[p|] pts IH]; intros coords.
  - cbn. by rewrite drop_nil, app_nil_r.
  - destruct coords as [|coord coords]; [reflexivity|].
    cbn. by rewrite IH.
  - cbn. apply IH.
Qed.

Lemma repos_pos_only pts : forall coords,
  without_pos <$> repos pts coords
  = without_pos <$> pts.
Proof.
  induction pts as [|[p|] pts IH]; intros [|coord coords]; cbn; try done;
    by rewrite IH.
Qed.

Lemma repos_same pts : repos pts (pos <$> omap id pts) = pts.
Proof.
  induction pts as [|[p|] pts IH]; cbn; [done|..].
  - rewrite IH. by destruct p.
  - by rewrite IH.
Qed.

Lemma setCoords_run s coords :
  slot_inv s -> setCoords s coords = Ok (set_points s (repos (points s) coords)).
Proof.
  intros Hinv. unfold setCoords, getPointNums, getPoints.
  pose proof (setCoords_loop_from (offset s) (points s) [] coords) as Hloop.
  cbn [app] in Hloop. rewrite Hloop; [reflexivity|].
  intros j p Hp. cbn. exact (Hinv j p Hp).
Qed.

End SlotFacts.

(** X7 ([indexPoints]): whenever [indexPoints] returns, it has changed
    indices of the points array and nothing else of the structure itself:
    the chromosome parameters and the offset are the same, and so are the
    slots once the indices are erased, whatever the point numbers are.
    (Nothing is said of the substructures, whose points the array may
    share.) *)
Theorem indexPoints_changes_indices_only `{Floats float} (s s' : @Structure float) :
  indexPoints s = Ok s' ->
  chrom s' = chrom s /\ offset s' = offset s /\
  without_index <$> points s'
    = without_index <$> points s /\
  getPointNums s' = getPointNums s /\ getCoords s' = getCoords s.
Proof.
  unfold indexPoints, indexPoints_loop. intros Hs.
  apply rbind_Ok in Hs as (pts & Hloop & Hs). injection Hs as <-.
  apply indexPoints_loop_index_only in Hloop.
  cbn [set_points chrom offset points].
  split; [done|]. split; [done|]. split; [exact Hloop|].
  unfold getPointNums, getCoords, getPoints. cbn [points].
  assert (forall l : list (option (@Point float)),
            omap id (without_index <$> l)
            = (fun p => set_index p 0) <$> omap id l) as Homap.
  { induction l as [|[p|] l IH]; cbn; [done|..]; by rewrite IH. }
  apply (f_equal (omap id)) in Hloop. rewrite !Homap in Hloop.
  split.
  - apply (f_equal (fmap num)) in Hloop.
    rewrite <- !list_fmap_compose in Hloop. exact Hloop.
  - apply (f_equal (fmap pos)) in Hloop.
    rewrite <- !list_fmap_compose in Hloop. exact Hloop.
Qed.

Lemma indexPoints_changes_indices_only_witness :
  exists s', @indexPoints Z Sample.shifted = Ok s' /\
    getPointNums s' = [2; 3; 5] /\ getCoords s' = getCoords Sample.shifted.
Proof.
  eexists. split; [reflexivity|].
  split; apply (@indexPoints_changes_indices_only Z int_floats Sample.shifted);
    reflexivity.
Defined.

(** X8 ([indexPoints]): on a structure whose points are numbered by their
    slots (slot [i] holds the point number [i + offset]), [indexPoints]
    returns, the points get the indices 0, 1, 2, ... in slot order whatever
    their indices were and whatever the offset is, and indexing the result
    again leaves it as it is. *)
Theorem indexPoints_slot_order `{Floats float} (s : @Structure float) :
  slot_inv s ->
  exists s', indexPoints s = Ok s' /\
    index <$> getPoints s' = Z.of_nat <$> seq 0 (length (getPoints s)) /\
    length (getPoints s') = length (getPoints s) /\
    slot_inv s' /\
    indexPoints s' = Ok s'.
Proof.
  intros Hinv.
  destruct (indexPoints_dense s Hinv) as (Hrun & Hinv' & Hdense).
  exists (set_points s (reindex (points s) 0)).
  split; [exact Hrun|]. split; [exact Hdense|]. split; [|split; [exact Hinv'|]].
  - apply (f_equal length) in Hdense.
    by rewrite !length_fmap, length_seq in Hdense.
  - destruct (indexPoints_dense _ Hinv') as (Hrun' & _).
    rewrite Hrun'. cbn [set_points points structures chrom offset].
    by rewrite reindex_reindex.
Qed.

Lemma indexPoints_slot_order_witness :
  exists s', @indexPoints Z Sample.shifted = Ok s' /\
    index <$> getPoints s' = [0; 1; 2].
Proof.
  destruct (@indexPoints_slot_order Z int_floats Sample.shifted) as (s' & Hs & Hi & _).
  - intros [|[|[|[|i]]]] p Hp; cbn in Hp; try discriminate;
      injection Hp as <-; reflexivity.
  - exists s'. split; [exact Hs|exact Hi].
Defined.



(** X10 ([setCoords], [getCoords]): on a structure whose points are numbered
    by their slots, [setCoords] returns, and [getCoords] then gives the new
    coordinates for as many points as there are coordinates, and the old
    ones for the rest; the point numbers, the indices and the empty slots
    are unchanged.  With one coordinate per point, [getCoords] gives the
    coordinates that were set.  (Nothing is said of the substructures, whose
    points the array may share.) *)
Theorem setCoords_getCoords `{Floats float} (s : @Structure float)
    (coords : list (@position float)) :
  slot_inv s ->
  exists s', setCoords s coords = Ok s' /\
    getCoords s' = take (length (getPoints s)) coords
                   ++ drop (length coords) (getCoords s) /\
    (length coords = length (getPoints s) -> getCoords s' = coords) /\
    without_pos <$> points s'
      = without_pos <$> points s /\
    chrom s' = chrom s /\ offset s' = offset s /\
    slot_inv s'.
Proof.
  intros Hinv. exists (set_points s (repos (points s) coords)).
  split; [by apply setCoords_run|].
  assert (Hget : getCoords (set_points s (repos (points s) coords))
                 = take (length (getPoints s)) coords
                   ++ drop (length coords) (getCoords s))
    by (unfold getCoords, getPoints; cbn [set_points points]; apply repos_pos).
  split; [exact Hget|]. split; [|split; [|split; [|split]]]; try done.
  - intros Hlen. rewrite Hget, <- Hlen, firstn_all.
    unfold getCoords. rewrite drop_ge by (rewrite length_fmap; lia).
    by rewrite app_nil_r.
  - cbn [set_points points]. apply repos_pos_only.
  - intros i p Hp. cbn [set_points points offset] in *.
    assert (Hi : (without_pos <$> repos (points s) coords) !! i
                 = Some (Some (set_pos p (fzero, fzero, fzero))))
      by (by rewrite list_lookup_fmap, Hp).
    rewrite repos_pos_only, list_lookup_fmap in Hi.
    destruct (points s !! i) as [[q|]|] eqn:Hq; try discriminate.
    cbn in Hi. injection Hi as Hi _ _.
    rewrite <- (Hinv i q Hq). symmetry. exact Hi.
Qed.

Lemma setCoords_getCoords_witness :
  exists s', @setCoords Z Sample.three_points [(1, 1, 1); (2, 2, 2)] = Ok s' /\
    getCoords s' = [(1, 1, 1); (2, 2, 2); (0, 0, 0)].
Proof.
  destruct (@setCoords_getCoords Z int_floats Sample.three_points
              [(1, 1, 1); (2, 2, 2)]) as (s' & Hs & Hc & _).
  - intros [|[|[|[|[|i]]]]] p Hp; cbn in Hp; try discriminate;
      injection Hp as <-; reflexivity.
  - exists s'. split; [exact Hs|exact Hc].
Defined.

(** X11 ([setCoords], [getCoords]): on a structure whose points are numbered
    by their slots, setting the coordinates that [getCoords] returns leaves
    the structure as it is. *)
Theorem setCoords_of_getCoords `{Floats float} (s : @Structure float) :
  slot_inv s -> setCoords s (getCoords s) = Ok s.
Proof.
  intros Hinv. rewrite setCoords_run by done.
  unfold getCoords, getPoints. by rewrite repos_same, set_points_same.
Qed.

Lemma setCoords_of_getCoords_witness :
  @setCoords Z Sample.four_points (getCoords Sample.four_points)
    = Ok Sample.four_points.
Proof.
  apply (@setCoords_of_getCoords Z int_floats Sample.four_points).
  intros [|[|[|[|[|i]]]]] p Hp; cbn in Hp; try discriminate;
    injection Hp as <-; reflexivity.
Defined.

(* ================================================================== *)
(** * Further properties of the structure and the matrix of a contact file *)

Section MarkedSlots.
Context `{Floats float}.
Implicit Types (s : @Structure float) (line : @Contact float).
Implicit Types (path : list (@Contact float)).
Implicit Types (slots : list (option (option Z))).

(** A record empties no slot, and fills the slots that it marks. *)
Lemma structureFromBed_step_marks c start end_ off slots line :
  0 < res c -> minPos c <= start -> end_ <= maxPos c ->
  start = minPos c + off * res c ->
  scan_inv (Z.to_nat ((end_ - start) / res c + 1)) off slots ->
  exists slots', structureFromBed_step c start end_ slots line = Ok slots' /\
    scan_inv (Z.to_nat ((end_ - start) / res c + 1)) off slots' /\
    forall i, slots' !! i = Some None <->
              slots !! i = Some None /\ ~ marks c start end_ line i.
Proof.
  intros Hres Hstart Hend Hoff Hinv. unfold structureFromBed_step.
  destruct (_ && _) eqn:Hin.
  2:{ exists slots. split; [done|]. split; [done|]. intros i.
      split; [|tauto]. intros Hi. split; [done|].
      intros (H1 & H4 & _).
      assert ((start <=? field1 line) && (field1 line <=? end_)
              && (start <=? field4 line) && (field4 line <=? end_) = true) as E.
      { rewrite !andb_true_iff, !Z.leb_le. lia. }
      congruence. }
  apply andb_prop in Hin as [Hin H4]. apply andb_prop in Hin as [Hin H3].
  apply andb_prop in Hin as [H1 H2].
  apply Z.leb_le in H1, H2, H3, H4.
  rewrite !getPointNum_inside by lia. cbn [rbind].
  destruct (bool_decide _) eqn:Hne.
  2:{ exists slots. split; [done|]. split; [done|]. intros i.
      split; [|tauto]. intros Hi. split; [done|].
      intros (_ & _ & Hd & _).
      apply bool_decide_eq_false in Hne. apply Hne. congruence. }
  apply bool_decide_eq_true in Hne.
  assert (Hslot : forall pos, start <= pos <= end_ ->
            exists i, (pos - start) / res c = Z.of_nat i /\
              (i < Z.to_nat ((end_ - start) / res c + 1))%nat /\
              (pos - minPos c) / res c = Z.of_nat i + off).
  { intros pos [Hlo Hhi].
    assert (0 <= (pos - start) / res c) by (apply Z.div_pos; lia).
    assert ((pos - start) / res c <= (end_ - start) / res c)
      by (apply Z.div_le_mono; lia).
    exists (Z.to_nat ((pos - start) / res c)). split; [lia|]. split; [lia|].
    replace (pos - minPos c) with (pos - start + off * res c) by lia.
    rewrite Z.div_add by lia. lia. }
  destruct (Hslot (field1 line) ltac:(lia)) as (i1 & Hi1 & Hlt1 & Hn1).
  destruct (Hslot (field4 line) ltac:(lia)) as (i2 & Hi2 & Hlt2 & Hn2).
  rewrite Hn1, Hn2 in Hne |- *.
  rewrite !py_div_pos by assumption. cbn [rbind]. rewrite Hi1, Hi2.
  pose proof (scan_inv_insert _ _ _ i1 Hinv Hlt1) as Hinv1.
  rewrite py_set_nonneg by (destruct Hinv as [-> _]; lia). cbn [rbind].
  rewrite py_set_nonneg by (destruct Hinv1 as [-> _]; lia).
  eexists. split; [reflexivity|]. split; [by apply scan_inv_insert|].
  intros i. unfold marks. rewrite Hi1, Hi2, Hn1, Hn2.
  destruct Hinv as [Hlen _]. destruct Hinv1 as [Hlen1 _].
  destruct (decide (i = i2)) as [->|Hne2].
  { rewrite list_lookup_insert_eq by lia. split; [discriminate|].
    intros [_ Hm]. exfalso. apply Hm.
    split; [lia|]. split; [lia|]. split; [congruence|]. by right. }
  rewrite list_lookup_insert_ne by done.
  destruct (decide (i = i1)) as [->|Hne1].
  { rewrite list_lookup_insert_eq by lia. split; [discriminate|].
    intros [_ Hm]. exfalso. apply Hm.
    split; [lia|]. split; [lia|]. split; [congruence|]. by left. }
  rewrite list_lookup_insert_ne by done.
  split; [|tauto]. intros Hi. split; [done|].
  intros (_ & _ & _ & [Hm|Hm]); lia.
Qed.

Lemma structureFromBed_loop_marks c start end_ off path : forall slots,
  0 < res c -> minPos c <= start -> end_ <= maxPos c ->
  start = minPos c + off * res c ->
  scan_inv (Z.to_nat ((end_ - start) / res c + 1)) off slots ->
  exists slots', for_each (structureFromBed_step c start end_) path slots = Ok slots' /\
    scan_inv (Z.to_nat ((end_ - start) / res c + 1)) off slots' /\
    forall i, slots' !! i = Some None <->
              slots !! i = Some None /\
              forall line, line ∈ path -> ~ marks c start end_ line i.
Proof.
  induction path as [|line path IH]; intros slots Hres Hstart Hend Hoff Hinv.
  - exists slots. split; [done|]. split; [done|]. intros i.
    split; [|tauto]. intros Hi. split; [done|].
    intros line Hin. by apply not_elem_of_nil in Hin.
  - destruct (structureFromBed_step_marks c start end_ off slots line
                Hres Hstart Hend Hoff Hinv) as (slots1 & Hstep & Hinv1 & Hm1).
    cbn [for_each]. rewrite Hstep. cbn [rbind].
    destruct (IH slots1 Hres Hstart Hend Hoff Hinv1) as (slots' & Hrun & Hinv' & Hm).
    exists slots'. split; [exact Hrun|]. split; [exact Hinv'|].
    intros i. rewrite Hm, Hm1. split.
    + intros [[Hi Hl] Hp]. split; [done|].
      intros line' [->|Hin]%elem_of_cons; [done|by apply Hp].
    + intros [Hi Hp]. split; [split; [done|]|].
      * apply Hp, list_elem_of_here.
      * intros line' Hin. by apply Hp, list_elem_of_further.
Qed.

End MarkedSlots.

(** X12 ([structureFromBed]): with a range within the chromosome, a positive
    resolution and an offset that is the point number of [start],
    [structureFromBed] returns a structure in which a slot is empty exactly
    when no record of the file marks it (a record marks the slots of its two
    positions when both are in the range and their point numbers differ),
    and every point is at the origin, refers to the chromosome and has the
    number of its slot plus the offset. *)
Theorem structureFromBed_loci `{Floats float} (path : list (@Contact float))
    (chrom0 : option ChromParameters) (start end_ : option Z) (off : Z)
    (c : ChromParameters) :
  match chrom0 with None => chromFromBed path | Some c => Ok c end = Ok c ->
  0 < res c ->
  minPos c <= default (minPos c) start ->
  default (minPos c) start <= default (maxPos c) end_ ->
  default (maxPos c) end_ <= maxPos c ->
  default (minPos c) start = minPos c + off * res c ->
  exists s, structureFromBed path chrom0 start end_ off = Ok s /\
    (forall i, (i < length (points s))%nat ->
       (points s !! i = Some None <->
        forall line, line ∈ path ->
          ~ marks c (default (minPos c) start) (default (maxPos c) end_) line i)) /\
    (forall i p, points s !! i = Some (Some p) ->
       pos p = (fzero, fzero, fzero) /\ pchrom p = c /\ num p = Z.of_nat i + off).
Proof.
  intros Hc Hres Hstart Horder Hend Hoff. unfold structureFromBed.
  rewrite Hc. cbn [rbind].
  set (st := default (minPos c) start) in *.
  set (en := default (maxPos c) end_) in *.
  rewrite py_div_pos by assumption. cbn [rbind].
  assert (Hq : 0 <= (en - st) / res c) by (apply Z.div_pos; lia).
  rewrite np_zeros_nonneg by lia. cbn [rbind].
  destruct (structureFromBed_loop_marks c st en off path
              (replicate (Z.to_nat ((en - st) / res c + 1)) None)
              Hres Hstart Hend Hoff) as (slots & -> & [Hlen Hslots] & Hmarks).
  { split; [apply length_replicate|]. intros i o Hi.
    apply lookup_replicate in Hi as [? _]. discriminate. }
  cbn [rbind].
  assert (Hfind : list_find (fun n : option Z => n = None) (omap id slots) = None).
  { apply list_find_None, Forall_forall. intros o Ho.
    apply list_elem_of_omap in Ho as (slot & Hin & Hslot).
    apply list_elem_of_lookup in Hin as [i Hi].
    unfold id in Hslot. subst slot. by rewrite (Hslots i o Hi). }
  rewrite Hfind.
  match goal with |- context [indexPoints ?s0] => set (s := s0) end.
  assert (Hinv : slot_inv s).
  { intros i p Hp. subst s. cbn [points offset] in *.
    rewrite list_lookup_fmap in Hp.
    destruct (slots !! i) as [[o|]|] eqn:Hi; try discriminate.
    cbn in Hp. inversion Hp; subst p. cbn. by rewrite (Hslots i o Hi). }
  destruct (indexPoints_dense s Hinv) as (Hrun & _ & _).
  eexists. split; [exact Hrun|]. cbn [set_points points]. split.
  - intros i Hi. rewrite reindex_length in Hi. rewrite reindex_lookup.
    subst s. cbn [points] in *. rewrite length_fmap in Hi.
    rewrite list_lookup_fmap.
    pose proof (Hmarks i) as Hm. rewrite lookup_replicate in Hm.
    destruct (slots !! i) as [[o|]|] eqn:Hs; cbn.
    + split; [discriminate|]. intros Hno.
      assert (Some (Some o) = Some None) as [=]. apply Hm. split; [|exact Hno].
      split; [done|lia].
    + split; [|done]. intros _. by apply Hm.
    + apply lookup_ge_None in Hs. lia.
  - intros i p Hp. rewrite reindex_lookup in Hp.
    subst s. cbn [points] in *. rewrite list_lookup_fmap in Hp.
    destruct (slots !! i) as [[o|]|] eqn:Hs; cbn in Hp; try discriminate.
    injection Hp as <-. cbn. rewrite (Hslots i o Hs). done.
Qed.

Lemma structureFromBed_loci_witness :
  exists s, @structureFromBed Z int_floats
              [Sample.contact 5000 3; Sample.contact 1000 1]
              (Some Sample.chr1) None None 0 = Ok s /\
    (points s !! 1%nat = Some None <->
     forall line, line ∈ [Sample.contact 5000 3; Sample.contact 1000 1] ->
       ~ marks Sample.chr1 1000 5000 line 1).
Proof.
  destruct (@structureFromBed_loci Z int_floats
              [Sample.contact 5000 3; Sample.contact 1000 1]
              (Some Sample.chr1) None None 0 Sample.chr1)
    as (s & Hs & Hempty & _); try (cbn; lia); [reflexivity|].
  exists s. split; [exact Hs|]. apply Hempty.
  vm_compute in Hs. injection Hs as <-. cbn. lia.
Defined.

Section MatrixOutcomes.
Context `{Floats float}.
Implicit Types (mat : list (list float)) (s : @Structure float).
Implicit Types (line : @Contact float) (path : list (@Contact float)).

Lemma py_idx_beyond n i : Z.of_nat n <= i -> py_idx n i = Raise IndexError.
Proof.
  intros Hi. unfold py_idx.
  destruct (Z.ltb_spec i (Z.of_nat n)); [lia|]. rewrite andb_false_r.
  destruct (Z.ltb_spec i 0); [lia|]. by rewrite andb_false_r.
Qed.

(** An index that [getIndex] returns is the index of a point. *)
Lemma getIndex_Some s g a :
  getIndex s g = Ok (Some a) -> exists p, p ∈ getPoints s /\ index p = a.
Proof.
  unfold getIndex. intros Hg.
  apply rbind_Ok in Hg as ([pn|] & _ & Hg); [|discriminate].
  destruct (_ && _); [|discriminate].
  destruct (points s !! _) as [[p|]|] eqn:Hp; try discriminate.
  injection Hg as <-. exists p. split; [|done].
  apply elem_of_getPoints, list_elem_of_lookup. eauto.
Qed.

Lemma getIndex_total s g :
  res (chrom s) <> 0 -> exists o, getIndex s g = Ok o.
Proof.
  intros Hres. unfold getIndex, getPointNum.
  destruct (_ || _); [by eexists|].
  rewrite py_div_nonzero by done. cbn [rbind].
  destruct (_ && _); [|by eexists].
  destruct (points s !! _) as [[p|]|]; by eexists.
Qed.

(** With indices that are not negative, the cell of a record is that of its
    two indices, the larger one first. *)
Lemma cell_of_joins s (k i j : nat) line :
  (forall p, p ∈ getPoints s -> 0 <= index p) ->
  (i < k)%nat -> (j < k)%nat ->
  cell_of s k line = Some (Nat.max i j, Nat.min i j) <->
  joins s (Z.of_nat i) (Z.of_nat j) line = true.
Proof.
  intros Hpos Hi Hj. unfold cell_of, joins.
  destruct (getIndex s (field1 line)) as [[a|]|] eqn:Ea; [|done..].
  destruct (getIndex s (field4 line)) as [[b|]|] eqn:Eb; [|done..].
  apply getIndex_Some in Ea as (pa & Hpa & <-).
  apply getIndex_Some in Eb as (pb & Hpb & <-).
  pose proof (Hpos pa Hpa) as Ha. pose proof (Hpos pb Hpb) as Hb.
  rewrite orb_true_iff, !andb_true_iff, !Z.eqb_eq.
  assert (forall row col : Z, 0 <= col <= row ->
            match py_idx k row, py_idx k col with
            | Ok r, Ok c => Some (r, c)
            | _, _ => None
            end = Some (Nat.max i j, Nat.min i j) <->
            row = Z.of_nat (Nat.max i j) /\ col = Z.of_nat (Nat.min i j)) as Hcell.
  { intros row col Hrc.
    destruct (Z.lt_ge_cases row (Z.of_nat k)) as [Hlt|Hge].
    - rewrite !py_idx_nonneg by lia. split.
      + intros [= Hr Hc]. lia.
      + intros [-> ->]. by rewrite !Nat2Z.id.
    - rewrite (py_idx_beyond k row) by done. split; [done|]. lia. }
  destruct (index pa >? index pb) eqn:Egt.
  - rewrite Z.gtb_ltb in Egt. apply Z.ltb_lt in Egt.
    rewrite Hcell by lia. lia.
  - rewrite Z.gtb_ltb in Egt. apply Z.ltb_ge in Egt.
    rewrite Hcell by lia. lia.
Qed.

Lemma mat_add_ok k mat (row col : Z) (w : float) :
  square k mat -> 0 <= row < Z.of_nat k -> 0 <= col < Z.of_nat k ->
  exists mat', mat_add mat row col w = Ok mat' /\ square k mat'.
Proof.
  intros Hsq Hrow Hcol.
  assert (exists mat', mat_add mat row col w = Ok mat') as [mat' Hadd].
  { destruct Hsq as [Hlen Hrows]. unfold mat_add.
    rewrite Hlen, py_idx_nonneg by done. cbn [rbind].
    destruct (lookup_lt_is_Some_2 mat (Z.to_nat row) ltac:(lia)) as [rowv Hr].
    rewrite Hr.
    assert (length rowv = k) as Hk.
    { rewrite Forall_forall in Hrows. apply Hrows.
      apply list_elem_of_lookup. eauto. }
    rewrite Hk, py_idx_nonneg by done. cbn [rbind].
    destruct (lookup_lt_is_Some_2 rowv (Z.to_nat col) ltac:(lia)) as [x Hx].
    rewrite Hx. by eexists. }
  exists mat'. split; [exact Hadd|].
  by destruct (mat_add_entry k mat row col w mat' Hsq Hadd)
    as (r & c & x & _ & _ & _ & Hsq' & _).
Qed.

Lemma matFromBed_loop_ok k s path : forall mat,
  res (chrom s) <> 0 ->
  (forall p, p ∈ getPoints s -> 0 <= index p < Z.of_nat k) ->
  square k mat ->
  exists mat', for_each (matFromBed_step s) path mat = Ok mat' /\ square k mat'.
Proof.
  induction path as [|line path IH]; intros mat Hres Hidx Hsq; [by exists mat|].
  cbn [for_each].
  assert (exists mat1, matFromBed_step s mat line = Ok mat1 /\ square k mat1)
    as (mat1 & Hstep & Hsq1).
  { unfold matFromBed_step.
    destruct (getIndex_total s (field1 line) Hres) as [o1 E1].
    destruct (getIndex_total s (field4 line) Hres) as [o2 E2].
    rewrite E1, E2. cbn [rbind].
    destruct o1 as [a|]; [|by exists mat].
    destruct o2 as [b|]; [|by exists mat].
    apply getIndex_Some in E1 as (pa & Hpa & <-).
    apply getIndex_Some in E2 as (pb & Hpb & <-).
    pose proof (Hidx pa Hpa). pose proof (Hidx pb Hpb).
    destruct (index pa >? index pb); by apply mat_add_ok. }
  rewrite Hstep. cbn [rbind]. by apply IH.
Qed.

Lemma foldl_max_elem (l : list Z) : forall x, foldl Z.max x l ∈ x :: l.
Proof.
  induction l as [|y l IH]; intros x; cbn [foldl]; [apply list_elem_of_here|].
  specialize (IH (Z.max x y)). apply elem_of_cons in IH as [IH|IH].
  - rewrite IH. destruct (Z.max_spec x y) as [[_ ->]|[_ ->]].
    + apply list_elem_of_further, list_elem_of_here.
    + apply list_elem_of_here.
  - by do 2 apply list_elem_of_further.
Qed.

(** The matrix is built without an error for a structure with points that
    are numbered by their slots and indexed within the number of points. *)
Lemma contact_matrix_ok path s :
  getPoints s <> [] -> res (chrom s) <> 0 -> slot_inv s ->
  (forall p, p ∈ getPoints s -> 0 <= index p < Z.of_nat (length (getPoints s))) ->
  exists mat, contact_matrix path s = Ok mat.
Proof.
  intros Hsome Hres Hinv Hidx. unfold contact_matrix.
  destruct (getPointNums s) as [|n nums] eqn:Hnums.
  { unfold getPointNums in Hnums. apply fmap_nil_inv in Hnums. done. }
  cbn [py_max rbind].
  pose proof (foldl_max_elem nums n) as Hmax. rewrite <- Hnums in Hmax.
  unfold getPointNums in Hmax.
  apply list_elem_of_fmap in Hmax as (p & Hp & Hin).
  apply elem_of_getPoints, list_elem_of_lookup in Hin as [i Hi].
  pose proof (Hinv i p Hi) as Hnum.
  pose proof (lookup_lt_Some _ _ _ Hi) as Hlt.
  destruct (Z.ltb_spec (foldl Z.max n nums - offset s)
              (Z.of_nat (length (points s)))); [|lia].
  cbn [negb].
  destruct (matFromBed_loop_ok (length (n :: nums)) s path
              (replicate (length (n :: nums))
                 (replicate (length (n :: nums)) fzero)) Hres)
    as (mat' & -> & _).
  - intros q Hq. rewrite <- Hnums. unfold getPointNums.
    rewrite length_fmap. by apply Hidx.
  - apply square_zeros.
  - cbn [rbind]. by eexists.
Qed.

(** After the matrix is built, [matFromBed] returns it or exits. *)
Lemma matFromBed_checks path (structure : option (@Structure float)) s mat :
  structure_or_default path structure = Ok s ->
  contact_matrix path s = Ok mat ->
  matFromBed path structure = Ok mat \/
  exists printed, matFromBed path structure = Raise (SystemExit printed 1).
Proof.
  intros Hs Hmat. unfold matFromBed. rewrite Hs. cbn [rbind]. rewrite Hmat.
  cbn [rbind]. destruct (zero_rows _); [by left|right; by eexists].
Qed.

End MatrixOutcomes.

(** X13 ([matFromBed]): in the matrix that [matFromBed] returns for a
    structure whose indices are not negative, the entry of the row [i] and
    the column [j] is the sum, from 0.0 and in file order, of the weights of
    the records whose two positions have the indices [i] and [j], in either
    order. *)
Theorem matFromBed_entries `{Floats float} (path : list (@Contact float))
    (structure : option (@Structure float)) (s : @Structure float)
    (M : matrix float) :
  structure_or_default path structure = Ok s ->
  matFromBed path structure = Ok M ->
  Forall (fun p => 0 <= index p) (getPoints s) ->
  forall i j : nat,
    (i < length (getPoints s))%nat -> (j < length (getPoints s))%nat ->
    entry M i j =
      Some (foldl fadd fzero
              (field6 <$> filter (fun line => joins s (Z.of_nat i) (Z.of_nat j) line = true)
                            path)).
Proof.
  intros Hs HM Hpos i j Hi Hj.
  unfold matFromBed in HM. rewrite Hs in HM. cbn in HM.
  apply rbind_Ok in HM as (mat & Hmat & HM).
  destruct (zero_rows _); [|discriminate]. inversion HM; subst M; clear HM.
  destruct (contact_matrix_entry path s mat Hmat) as (_ & _ & Hent).
  unfold getPointNums in Hent. rewrite length_fmap in Hent.
  rewrite (Hent i j Hi Hj). do 3 f_equal. unfold weights_at. f_equal.
  rewrite Forall_forall in Hpos.
  apply list_filter_iff. intros line.
  by apply cell_of_joins.
Qed.

Lemma matFromBed_entries_witness :
  @entry Z [[2; 3]; [3; 0]] 0 1 = Some 3.
Proof.
  apply (@matFromBed_entries Z int_floats
           [Sample.contact 5000 3; Sample.contact 1000 2] None
           (@mkStructure Z
              [Some (Sample.point 0 0); None; None; None; Some (Sample.point 4 1)]
              [] Sample.chr1 0)
           [[2; 3]; [3; 0]] ltac:(vm_compute; reflexivity)
           ltac:(vm_compute; reflexivity)).
  - cbn. repeat constructor; cbn; lia.
  - cbn. lia.
  - cbn. lia.
Defined.

(** X14 ([matFromBed]): for a structure without points [matFromBed] raises
    ValueError.  For a structure with points that are numbered by their
    slots and whose indices are within the number of points, with a
    resolution that is not 0, it raises no error of its own: it returns the
    matrix, or prints and exits with the status 1. *)
Theorem matFromBed_outcomes `{Floats float} (path : list (@Contact float))
    (s : @Structure float) :
  (getPoints s = [] -> matFromBed path (Some s) = Raise ValueError) /\
  (getPoints s <> [] ->
   res (chrom s) <> 0 -> slot_inv s ->
   Forall (fun p => 0 <= index p < Z.of_nat (length (getPoints s))) (getPoints s) ->
   exists mat, contact_matrix path s = Ok mat /\
     (matFromBed path (Some s) = Ok mat \/
      exists printed, matFromBed path (Some s) = Raise (SystemExit printed 1))).
Proof.
  split.
  - intros Hnone. unfold matFromBed, structure_or_default, contact_matrix.
    cbn [rbind]. unfold getPointNums. rewrite Hnone. reflexivity.
  - intros Hsome Hres Hinv Hidx. rewrite Forall_forall in Hidx.
    destruct (contact_matrix_ok path s Hsome Hres Hinv Hidx) as [mat Hmat].
    exists mat. split; [exact Hmat|].
    by apply (matFromBed_checks path (Some s) s).
Qed.

Lemma matFromBed_outcomes_witness :
  exists mat, @contact_matrix Z int_floats [Sample.contact 5000 3] Sample.three_points
              = Ok mat /\
    (@matFromBed Z int_floats [Sample.contact 5000 3] (Some Sample.three_points)
       = Ok mat \/
     exists printed,
       @matFromBed Z int_floats [Sample.contact 5000 3] (Some Sample.three_points)
         = Raise (SystemExit printed 1)).
Proof.
  apply (@matFromBed_outcomes Z int_floats [Sample.contact 5000 3] Sample.three_points).
  - discriminate.
  - discriminate.
  - intros [|[|[|[|[|i]]]]] p Hp; cbn in Hp; try discriminate;
      injection Hp as <-; reflexivity.
  - cbn. repeat constructor; cbn; lia.
Defined.

(* ================================================================== *)
(** * Further properties of the resolution reduction *)

Section RankFacts.
Context `{Floats float}.
Implicit Types (p : @Point float) (h : @Structure float).
Implicit Types (pts : list (option (@Point float))).

(** Points whose indices are their ranks among the points, counted from
    [lo], have the indices [lo], [lo + 1], ... in slot order. *)
Lemma dense_from pts (lo : Z) :
  (forall i p, pts !! i = Some (Some p) ->
     index p = lo + Z.of_nat (length (omap id (take i pts)))) ->
  index <$> omap id pts
  = (fun j => lo + Z.of_nat j) <$> seq 0 (length (omap id pts)).
Proof.
  intros Hidx. apply list_eq. intros k. rewrite !list_lookup_fmap.
  destruct (omap id pts !! k) as [x|] eqn:Hk.
  - destruct (omap_lookup_slot _ _ _ Hk) as (j & Hj & Hlen).
    rewrite lookup_seq_lt by (by apply lookup_lt_Some in Hk).
    cbn. by rewrite (Hidx j x Hj), Hlen.
  - apply lookup_ge_None in Hk. by rewrite lookup_seq_ge.
Qed.

(** Points indexed from [k] in slot order are as [indexPoints] leaves them. *)
Lemma reindex_fixed pts : forall k : Z,
  index <$> omap id pts
  = (fun j => k + Z.of_nat j) <$> seq 0 (length (omap id pts)) ->
  reindex pts k = pts.
Proof.
  induction pts as [|[p|] pts IH]; intros k Hk; cbn in Hk |- *; [done|..].
  - injection Hk as Hp Hk. f_equal.
    + destruct p as [ps n c i]. cbn in Hp |- *. unfold set_index. cbn.
      do 2 f_equal. lia.
    + apply IH. rewrite Hk.
      rewrite <- fmap_S_seq, <- list_fmap_compose.
      apply list_fmap_ext. intros _ j _. cbn. lia.
  - f_equal. by apply IH.
Qed.

(** The number of points before a slot, when the slots that hold a point
    are those of the lists [bs] that are not empty. *)
Lemma nonempty_before_points {A : Type} pts (bs : list (list A)) :
  length bs = length pts ->
  (forall i b, bs !! i = Some b ->
     (b <> [] -> exists p, pts !! i = Some (Some p)) /\
     (b = [] -> pts !! i = Some None)) ->
  forall i, (i <= length pts)%nat ->
    nonempty_before bs i = length (omap id (take i pts)).
Proof.
  intros Hlen Hslots. induction i as [|i IH]; intros Hi.
  - by rewrite take_0.
  - destruct (lookup_lt_is_Some_2 bs i ltac:(lia)) as [b Hb].
    rewrite (nonempty_before_S bs i b Hb), IH by lia.
    destruct (Hslots i b Hb) as [Hsome Hnone].
    destruct (decide (b <> [])) as [Hne|He].
    + destruct (Hsome Hne) as [p Hp].
      rewrite (take_S_r _ _ _ Hp), omap_app, length_app. reflexivity.
    + assert (b = []) as Hnil by (by destruct b; [|exfalso; apply He]).
      rewrite (take_S_r _ _ _ (Hnone Hnil)), omap_app, length_app. cbn. lia.
Qed.

End RankFacts.

(** X15 ([highToLow], [indexPoints]): the structure that [highToLow] returns
    numbers its points by their slots and indexes them consecutively in slot
    order, beginning at its offset.  [indexPoints] indexes them from 0, and
    leaves the structure as it is when the offset of the high-resolution
    structure is below the ratio. *)
Theorem highToLow_indices `{Floats float} (h : @Structure float) (r : Z) :
  0 < r -> res (chrom h) <> 0 ->
  Forall (fun p => 0 <= num p - offset h < Z.of_nat (length (points h)))
    (getPoints h) ->
  exists low, highToLow h r = Ok low /\
    slot_inv low /\
    index <$> getPoints low
      = (fun j => offset low + Z.of_nat j) <$> seq 0 (length (getPoints low)) /\
    (exists low', indexPoints low = Ok low' /\
       index <$> getPoints low' = Z.of_nat <$> seq 0 (length (getPoints low))) /\
    (0 <= offset h < r -> indexPoints low = Ok low).
Proof.
  intros Hr Hres Hlocal. rewrite Forall_forall in Hlocal.
  destruct (highToLow_run h r Hr Hres Hlocal)
    as (lowChrom & pts & Hchrom & Hrun & Hlen & Hpts).
  set (lo := offset h / r) in *.
  set (bs := bucket_of h r <$> seq 0 (length pts)) in *.
  exists (mkStructure pts [] lowChrom lo).
  assert (Hinv : slot_inv (mkStructure pts [] lowChrom lo)).
  { intros i p Hp. cbn [points offset] in *.
    rewrite (Hpts i (lookup_lt_Some _ _ _ Hp)) in Hp.
    destruct (decide _); [|discriminate]. by injection Hp as <-. }
  assert (Hrank : forall i, (i <= length pts)%nat ->
            nonempty_before bs i = length (omap id (take i pts))).
  { apply nonempty_before_points.
    - subst bs. by rewrite length_fmap, length_seq.
    - intros i b Hb. subst bs. rewrite list_lookup_fmap in Hb.
      destruct (seq 0 (length pts) !! i) as [m|] eqn:Hm; [|discriminate].
      apply lookup_seq in Hm as [-> Hi]. cbn in Hb. injection Hb as <-.
      rewrite (Hpts i Hi). split.
      + intros Hne. rewrite decide_True by done. by eexists.
      + intros He. by rewrite decide_False by (by intros []). }
  assert (Hdense : index <$> omap id pts
            = (fun j => lo + Z.of_nat j) <$> seq 0 (length (omap id pts))).
  { apply dense_from. intros i p Hp.
    pose proof (lookup_lt_Some _ _ _ Hp) as Hi.
    rewrite (Hpts i Hi) in Hp.
    destruct (decide _); [|discriminate]. injection Hp as <-.
    cbn. by rewrite Hrank by lia. }
  split; [exact Hrun|]. split; [exact Hinv|]. split; [exact Hdense|].
  destruct (indexPoints_dense _ Hinv) as (Hidx & _ & Hzero).
  split; [by eexists|].
  intros Hoff. rewrite Hidx. cbn [set_points points structures chrom offset].
  assert (lo = 0) as Hlo by (by apply Z.div_small).
  rewrite Hlo in Hdense. by rewrite (reindex_fixed pts 0 Hdense).
Qed.

Lemma highToLow_indices_witness :
  exists low, @highToLow Z int_floats Sample.shifted 2 = Ok low /\
    index <$> getPoints low = [offset low + 0; offset low + 1].
Proof.
  destruct (@highToLow_indices Z int_floats Sample.shifted 2)
    as (low & Hlow & _ & Hidx & _).
  - lia.
  - discriminate.
  - cbn. repeat constructor; cbn; lia.
  - exists low. split; [exact Hlow|]. rewrite Hidx.
    vm_compute in Hlow. injection Hlow as <-. reflexivity.
Defined.

(** X16 ([highToLow], [reduceRes]): when [minPos] is a multiple of the low
    resolution and the offset is a multiple of the ratio, every point of the
    high-resolution structure has its genomic coordinate in the bin of a
    point of the low-resolution structure: at or after the coordinate of
    that point, and less than one low resolution after it. *)
Theorem highToLow_bins `{Floats float} (h : @Structure float) (r : Z) :
  0 < r -> 0 < res (chrom h) ->
  Forall (fun p => 0 <= num p - offset h < Z.of_nat (length (points h)))
    (getPoints h) ->
  (exists q, minPos (chrom h) = q * (res (chrom h) * r)) ->
  (exists q, offset h = q * r) ->
  exists low, highToLow h r = Ok low /\
    res (chrom low) = res (chrom h) * r /\
    forall hp, hp ∈ getPoints h ->
      exists lp, lp ∈ getPoints low /\
        coord_of low lp <= coord_of h hp < coord_of low lp + res (chrom low).
Proof.
  intros Hr Hres Hlocal [qm Hmin] [qo Hoff]. rewrite Forall_forall in Hlocal.
  destruct (highToLow_run h r Hr ltac:(lia) Hlocal)
    as (lowChrom & pts & Hchrom & Hrun & Hlen & Hpts).
  exists (mkStructure pts [] lowChrom (offset h / r)).
  split; [exact Hrun|].
  assert (0 < res (chrom h) * r) as Hlow by nia.
  unfold reduceRes in Hchrom. rewrite !py_div_pos in Hchrom by done.
  cbn in Hchrom. injection Hchrom as <-.
  cbn [chrom res]. split; [reflexivity|].
  intros hp Hhp. destruct (Hlocal hp Hhp) as [Hlo Hhi].
  assert (0 <= (num hp - offset h) / r) by (apply Z.div_pos; lia).
  assert ((num hp - offset h) / r <= Z.of_nat (length (points h)) / r)
    by (apply Z.div_le_mono; lia).
  set (i := Z.to_nat ((num hp - offset h) / r)).
  assert (Hi : (i < length pts)%nat) by lia.
  assert (Hin : hp ∈ bucket_of h r i).
  { unfold bucket_of. apply list_elem_of_filter. split; [lia | exact Hhp]. }
  pose proof (Hpts i Hi) as Hpt.
  rewrite decide_True in Hpt by (intros He; rewrite He in Hin; by apply not_elem_of_nil in Hin).
  eexists. split.
  { apply elem_of_getPoints. cbn [points].
    apply list_elem_of_lookup. exists i. exact Hpt. }
  unfold coord_of. cbn [chrom minPos res merged num].
  rewrite Hmin, Z.div_mul by lia.
  assert (Z.of_nat i + offset h / r = num hp / r) as ->.
  { subst i. rewrite Z2Nat.id by done. rewrite Hoff.
    replace (num hp - qo * r) with (num hp + (- qo) * r) by lia.
    rewrite Z.div_add, Z.div_mul by lia. lia. }
  pose proof (floor_multiple (num hp) r Hr) as Hfl.
  nia.
Qed.

Lemma highToLow_bins_witness :
  exists low, @highToLow Z int_floats Sample.aligned 2 = Ok low /\
    res (chrom low) = res (chrom Sample.aligned) * 2 /\
    forall hp, hp ∈ getPoints Sample.aligned ->
      exists lp, lp ∈ getPoints low /\
        coord_of low lp <= coord_of Sample.aligned hp
          < coord_of low lp + res (chrom low).
Proof.
  apply (@highToLow_bins Z int_floats Sample.aligned 2).
  - lia.
  - cbn. lia.
  - cbn. repeat constructor; cbn; lia.
  - exists 1. reflexivity.
  - exists 1. reflexivity.
Defined.

(* ================================================================== *)
(** * Further properties of the points of a parent structure *)

Section UnionFacts.
Context `{Floats float}.
Implicit Types (p q : @Point float) (s self : @Structure float).
Implicit Types (pts : list (option (@Point float))).

(** The inner loop of [setstructures] fills the slot of every point number
    of the child, empties no slot, and stores points of the child only. *)
Lemma setstructures_inner_union n (slots : list (option Point)) : forall pts,
  length pts = n ->
  (forall p, Some p ∈ slots -> 0 <= num p < Z.of_nat n) ->
  exists pts',
    for_each (fun pts point =>
                match point with
                | None => Ok pts
                | Some p => py_set pts (num p) (Some p)
                end) slots pts = Ok pts' /\
    length pts' = n /\
    (forall p, Some p ∈ slots ->
       exists q, pts' !! Z.to_nat (num p) = Some (Some q)) /\
    (forall i q, pts !! i = Some (Some q) -> exists q', pts' !! i = Some (Some q')) /\
    (forall i q, pts' !! i = Some (Some q) ->
       pts !! i = Some (Some q) \/ Some q ∈ slots).
Proof.
  induction slots as [|[p|] slots IH]; intros pts Hlen Hrange.
  - exists pts. split; [done|]. split; [done|]. split; [|split]; [|by eauto..].
    intros p Hp. by apply not_elem_of_nil in Hp.
  - cbn [for_each]. destruct (Hrange p ltac:(left)) as [Hlo Hhi].
    replace (py_set pts (num p) (Some p))
      with (py_set pts (Z.of_nat (Z.to_nat (num p))) (Some p))
      by (by rewrite Z2Nat.id).
    rewrite py_set_nonneg by lia. cbn [rbind].
    destruct (IH (<[Z.to_nat (num p) := Some p]> pts))
      as (pts' & Hrun & Hlen' & Hfill & Hkeep & Horigin).
    { by rewrite length_insert. }
    { intros q Hq. apply Hrange. by right. }
    exists pts'. split; [exact Hrun|]. split; [exact Hlen'|].
    split; [|split].
    + intros q [[= ->]|Hq]%elem_of_cons; [|by apply Hfill].
      apply (Hkeep _ p). rewrite list_lookup_insert_eq by lia. reflexivity.
    + intros i q Hq. destruct (decide (i = Z.to_nat (num p))) as [->|Hne].
      * apply (Hkeep _ p). rewrite list_lookup_insert_eq by lia. reflexivity.
      * apply (Hkeep _ q). by rewrite list_lookup_insert_ne.
    + intros i q Hq. destruct (Horigin i q Hq) as [Hi|Hin].
      * destruct (decide (i = Z.to_nat (num p))) as [->|Hne].
        -- rewrite list_lookup_insert_eq in Hi by lia.
           injection Hi as <-. right. left.
        -- rewrite list_lookup_insert_ne in Hi by done. by left.
      * right. by right.
  - cbn [for_each rbind].
    destruct (IH pts Hlen) as (pts' & Hrun & Hlen' & Hfill & Hkeep & Horigin).
    { intros q Hq. apply Hrange. by right. }
    exists pts'. split; [exact Hrun|]. split; [exact Hlen'|].
    split; [|split].
    + intros q [[=]|Hq]%elem_of_cons. by apply Hfill.
    + exact Hkeep.
    + intros i q Hq. destruct (Horigin i q Hq); [by left|right; by right].
Qed.

Lemma setstructures_outer_union n (strs : list Structure) : forall pts,
  length pts = n ->
  (forall s p, s ∈ strs -> Some p ∈ points s -> 0 <= num p < Z.of_nat n) ->
  exists pts',
    for_each (fun pts structure =>
      for_each (fun pts point =>
                  match point with
                  | None => Ok pts
                  | Some p => py_set pts (num p) (Some p)
                  end) (points structure) pts) strs pts = Ok pts' /\
    length pts' = n /\
    (forall s p, s ∈ strs -> Some p ∈ points s ->
       exists q, pts' !! Z.to_nat (num p) = Some (Some q)) /\
    (forall i q, pts !! i = Some (Some q) -> exists q', pts' !! i = Some (Some q')) /\
    (forall i q, pts' !! i = Some (Some q) ->
       pts !! i = Some (Some q) \/ exists s, s ∈ strs /\ Some q ∈ points s).
Proof.
  induction strs as [|s strs IH]; intros pts Hlen Hrange.
  - exists pts. split; [done|]. split; [done|]. split; [|split]; [|by eauto..].
    intros s p Hs. by apply not_elem_of_nil in Hs.
  - cbn [for_each].
    destruct (setstructures_inner_union n (points s) pts Hlen)
      as (pts1 & -> & Hlen1 & Hfill1 & Hkeep1 & Horigin1).
    { intros p Hp. apply (Hrange s p); [left | exact Hp]. }
    cbn [rbind].
    destruct (IH pts1 Hlen1) as (pts' & Hrun & Hlen' & Hfill & Hkeep & Horigin).
    { intros s' p Hs' Hp. apply (Hrange s' p); [by right | exact Hp]. }
    exists pts'. split; [exact Hrun|]. split; [exact Hlen'|].
    split; [|split].
    + intros s' p [->|Hs']%elem_of_cons Hp.
      * destruct (Hfill1 p Hp) as [q Hq]. by apply (Hkeep _ q).
      * by apply (Hfill s').
    + intros i q Hq. destruct (Hkeep1 i q Hq) as [q1 Hq1]. by apply (Hkeep _ q1).
    + intros i q Hq. destruct (Horigin i q Hq) as [Hi|(s' & Hs' & Hin)].
      * destruct (Horigin1 i q Hi) as [?|Hin]; [by left|].
        right. exists s. split; [left|exact Hin].
      * right. exists s'. split; [by right|exact Hin].
Qed.

(** [map_r] raises the first error. *)
Lemma map_r_raises {A B : Type} (f : A -> result B) (l : list A) (e : exn) :
  (forall a e', f a = Raise e' -> e' = e) ->
  (exists a, a ∈ l /\ f a = Raise e) ->
  map_r f l = Raise e.
Proof.
  intros Hone. induction l as [|a l IH]; intros (a' & Hin & Ha').
  - by apply not_elem_of_nil in Hin.
  - cbn. destruct (f a) as [b|e'] eqn:Ha.
    + cbn. rewrite IH; [reflexivity|].
      apply elem_of_cons in Hin as [->|Hin]; [congruence|eauto].
    + cbn. by rewrite (Hone a e' Ha).
Qed.

End UnionFacts.

(** X17 ([setstructures]): without substructures, or with a substructure
    that has no point, [setstructures] raises ValueError.  Otherwise, when no
    point number is negative, the parent gets an array of as many slots as
    the largest point number plus one, in which the slot of every point
    number of a substructure holds a point of that number, and which holds
    points of the substructures only. *)
Theorem setstructures_union `{Floats float} (self : @Structure float)
    (strs : list (@Structure float)) :
  (strs = [] \/ (exists s, s ∈ strs /\ getPoints s = []) ->
   setstructures self strs = Raise ValueError) /\
  (strs <> [] ->
   (forall s, s ∈ strs -> getPoints s <> []) ->
   (forall s p, s ∈ strs -> p ∈ getPoints s -> 0 <= num p) ->
   exists s' m, setstructures self strs = Ok s' /\
     (exists s p, s ∈ strs /\ p ∈ getPoints s /\ num p = m) /\
     (forall s p, s ∈ strs -> p ∈ getPoints s -> num p <= m) /\
     Z.of_nat (length (points s')) = m + 1 /\
     (forall s p, s ∈ strs -> p ∈ getPoints s ->
        exists q, points s' !! Z.to_nat (num p) = Some (Some q) /\ num q = num p) /\
     (forall i q, points s' !! i = Some (Some q) ->
        num q = Z.of_nat i /\ exists s, s ∈ strs /\ q ∈ getPoints s)).
Proof.
  split.
  - intros [->|Hempty]; [reflexivity|].
    unfold setstructures. rewrite (map_r_raises _ _ ValueError); [reflexivity|..].
    + intros s e'. unfold py_max. destruct (getPointNums s); [|discriminate].
      by intros [= <-].
    + destruct Hempty as (s & Hs & Hnone). exists s. split; [exact Hs|].
      unfold getPointNums. by rewrite Hnone.
  - intros Hne Hpoints' Hnonneg.
    assert (Hpoints : forall s, s ∈ strs -> getPointNums s <> []).
    { intros s Hs Hnil. apply (Hpoints' s Hs). unfold getPointNums in Hnil.
      by apply fmap_nil_inv in Hnil. }
    unfold setstructures.
    destruct (map_r_total (fun structure => py_max (getPointNums structure)) strs)
      as (maxes & -> & Hmaxes).
    { intros s Hs. destruct (py_max_spec _ (Hpoints s Hs)) as (m & Hm & _). eauto. }
    cbn [rbind].
    assert (Hmaxes_ne : maxes <> []).
    { destruct Hmaxes; [done | discriminate]. }
    destruct (py_max_spec maxes Hmaxes_ne) as (m & Hmax & Hm).
    rewrite Hmax. cbn [rbind].
    assert (Hbound : forall s p, s ∈ strs -> p ∈ getPoints s -> 0 <= num p <= m).
    { intros s p Hs Hp. split; [eauto|].
      apply list_elem_of_lookup in Hs as [i Hi].
      destruct (Forall2_lookup_l _ _ _ _ _ Hmaxes Hi) as (ms & Hms & Hmax1).
      destruct (py_max_spec _ (Hpoints s ltac:(apply list_elem_of_lookup; eauto)))
        as (ms' & Hmax' & Hle).
      rewrite Hmax1 in Hmax'. inversion Hmax'; subst ms'.
      transitivity ms.
      - apply Hle. unfold getPointNums. by apply list_elem_of_fmap_2.
      - apply Hm. apply list_elem_of_lookup. eauto. }
    assert (Hreached : exists s p, s ∈ strs /\ p ∈ getPoints s /\ num p = m).
    { destruct maxes as [|x maxes]; [done|]. cbn in Hmax. injection Hmax as <-.
      pose proof (foldl_max_elem maxes x) as Hin.
      apply list_elem_of_lookup in Hin as [i Hi].
      destruct (Forall2_lookup_r _ _ _ _ _ Hmaxes Hi) as (s & Hs & Hms).
      unfold py_max in Hms.
      destruct (getPointNums s) as [|n nums] eqn:Hnums; [discriminate|].
      injection Hms as Hms.
      pose proof (foldl_max_elem nums n) as Hin. rewrite Hms, <- Hnums in Hin.
      unfold getPointNums in Hin.
      apply list_elem_of_fmap in Hin as (p & Hp & Hin).
      exists s, p. split; [apply list_elem_of_lookup; eauto|]. by split. }
    assert (Hm0 : 0 <= m).
    { destruct Hreached as (s & p & Hs & Hp & <-). by apply (Hnonneg s). }
    rewrite np_zeros_nonneg by lia. cbn [rbind].
    assert (Hrange : forall s p, s ∈ strs -> Some p ∈ points s ->
              0 <= num p < Z.of_nat (Z.to_nat (m + 1))).
    { intros s p Hs Hp. apply elem_of_getPoints in Hp.
      destruct (Hbound s p Hs Hp). lia. }
    destruct (setstructures_outer_union (Z.to_nat (m + 1)) strs
                (replicate (Z.to_nat (m + 1)) None) (length_replicate _ _) Hrange)
      as (pts & Hrun & Hlen & Hfill & _ & Horigin).
    destruct (setstructures_outer (Z.to_nat (m + 1)) strs
                (replicate (Z.to_nat (m + 1)) None))
      as (pts2 & Hrun2 & _ & Hslots); [| exact Hrange |].
    { split; [apply length_replicate|]. intros i p Hp.
      apply lookup_replicate in Hp as [? _]. discriminate. }
    rewrite Hrun in Hrun2. injection Hrun2 as <-.
    rewrite Hrun. cbn [rbind].
    eexists _, m. split; [reflexivity|]. cbn [points].
    split; [exact Hreached|]. split; [intros s p Hs Hp; by apply (Hbound s p)|].
    split; [lia|]. split.
    + intros s p Hs Hp. pose proof (Hbound s p Hs Hp).
      apply elem_of_getPoints in Hp.
      destruct (Hfill s p Hs Hp) as [q Hq]. exists q. split; [exact Hq|].
      rewrite (Hslots _ q Hq). lia.
    + intros i q Hq. split; [by apply Hslots|].
      destruct (Horigin i q Hq) as [Hi|(s & Hs & Hin)].
      * apply lookup_replicate in Hi as [? _]. discriminate.
      * exists s. split; [exact Hs|]. by apply elem_of_getPoints.
Qed.

Lemma setstructures_union_witness :
  exists s' m, @setstructures Z Sample.no_slots [Sample.sub; Sample.three_points]
               = Ok s' /\
    Z.of_nat (length (points s')) = m + 1 /\ m = 4.
Proof.
  destruct (proj2 (@setstructures_union Z int_floats Sample.no_slots
                     [Sample.sub; Sample.three_points]))
    as (s' & m & Hs & (s & p & Hin & Hp & Hm) & _ & Hlen & _).
  - discriminate.
  - intros s Hs. repeat (apply elem_of_cons in Hs as [->|Hs]; [discriminate|]).
    by apply not_elem_of_nil in Hs.
  - intros s p Hs Hp.
    repeat (apply elem_of_cons in Hs as [->|Hs];
            [cbn in Hp;
             repeat (apply elem_of_cons in Hp as [->|Hp]; [cbn; lia|]);
             by apply not_elem_of_nil in Hp|]).
    by apply not_elem_of_nil in Hs.
  - exists s', m. split; [exact Hs|]. split; [exact Hlen|].
    vm_compute in Hs. injection Hs as <-. cbn in Hlen. lia.
Defined.

(* ================================================================== *)
(** * Further properties of the structure files *)

Section RereadFacts.
Context `{Floats float}.
Implicit Types (p : @Point float) (s : @Structure float).
Implicit Types (pts : list (option (@Point float))).




End RereadFacts.



(* ================================================================== *)
(** * Further properties of the consensus alignment *)

Section SharedCoords.
Context `{Floats float}.
Implicit Types (p : @Point float) (s : @Structure float).
Implicit Types (pts : list (option (@Point float))) (consensus : list Z).
Implicit Types (heap : list (@Structure float)).







End SharedCoords.





(* ================================================================== *)
(** * Further properties across functions *)

(** X21 ([write]): when the chromosome name has no newline, the file written
    has three header lines, the name, the resolution and [minPos], and then
    one line per slot of the points array, empty slots included; the line of
    a slot splits into four fields, the first of which is the number of the
    slot counted from the offset, the others the coordinates or nan. *)
Theorem write_file_lines `{Floats float} (s : @Structure float) :
  (forall x : float, token (fstr x)) ->
  no_newline (name (chrom s)) = true ->
  length (lines (write s)) = (3 + length (points s))%nat /\
  lines (write s) !! 0%nat = Some (name (chrom s) +:+ nl) /\
  lines (write s) !! 1%nat = Some (str_int (res (chrom s)) +:+ nl) /\
  lines (write s) !! 2%nat = Some (str_int (minPos (chrom s)) +:+ nl) /\
  forall (i : nat) point, points s !! i = Some point ->
    exists line, lines (write s) !! (3 + i)%nat = Some line /\
      split (strip line) =
        str_int (offset s + Z.of_nat i) ::
        match point with
        | None => ["nan"; "nan"; "nan"]
        | Some p => [fstr (pos p).1.1; fstr (pos p).1.2; fstr (pos p).2]
        end.
Proof.
  intros Hfstr Hnl. unfold write.
  rewrite (lines_app_nl _ _ Hnl).
  rewrite (lines_app_nl (str_int (res (chrom s))))
    by apply no_space_no_newline, str_int_token.
  rewrite (lines_app_nl (str_int (minPos (chrom s))))
    by apply no_space_no_newline, str_int_token.
  rewrite (lines_write_lines _ _ Hfstr).
  split; [cbn; by rewrite length_imap|]. do 3 (split; [reflexivity|]).
  intros i point Hi.
  change (3 + i)%nat with (S (S (S i))). rewrite !lookup_cons.
  rewrite list_lookup_imap, Hi.
  eexists. split; [reflexivity|].
  unfold write_line. destruct point as [p|].
  - destruct (pos p) as [[x y] z]. cbn [fst snd].
    apply (split_strip_line (str_int _) [fstr x; fstr y; fstr z]);
      [apply str_int_token|].
    repeat constructor; apply Hfstr.
  - apply (split_strip_line (str_int _) ["nan"; "nan"; "nan"]);
      [apply str_int_token|].
    by repeat constructor.
Qed.

Lemma write_file_lines_witness :
  length (lines (@write Z int_floats Sample.shifted)) = (3 + 4)%nat /\
  exists line, lines (@write Z int_floats Sample.shifted) !! (3 + 2)%nat = Some line /\
    split (strip line) = [str_int (2 + 2); "nan"; "nan"; "nan"].
Proof.
  destruct (@write_file_lines Z int_floats Sample.shifted) as (Hlen & _ & _ & _ & Hline).
  - apply str_int_token.
  - reflexivity.
  - split; [exact Hlen|]. apply (Hline 2%nat None). reflexivity.
Defined.

(** X22 ([reduceRes], [getPointNum]): when [minPos] is a multiple of the low
    resolution, a coordinate that has the point number [n] has the point
    number [n / ratio] in the low-resolution chromosome, unless it lies
    above the [maxPos] of the low-resolution chromosome, which is rounded
    down: then it has no point number there. *)
Theorem reduceRes_getPointNum (c : ChromParameters) (ratio : Z) :
  0 < res c -> 0 < ratio ->
  (exists q, minPos c = q * (res c * ratio)) ->
  exists low, reduceRes c ratio = Ok low /\
    forall g n, getPointNum c g = Ok (Some n) ->
      getPointNum low g
      = Ok (if decide (g <= maxPos low) then Some (n / ratio) else None).
Proof.
  intros Hres Hratio [q Hmin].
  assert (0 < res c * ratio) as Hlow by nia.
  unfold reduceRes. rewrite !py_div_pos by done. cbn.
  eexists. split; [reflexivity|].
  intros g n Hg. unfold getPointNum in Hg |- *. cbn [minPos maxPos res].
  rewrite Hmin, Z.div_mul by lia. rewrite <- Hmin.
  destruct (g <? minPos c) eqn:E1; [discriminate|].
  destruct (g >? maxPos c) eqn:E2; [discriminate|].
  cbn [orb] in Hg |- *. rewrite py_div_pos in Hg by done. cbn in Hg.
  injection Hg as <-.
  rewrite Z.gtb_ltb.
  destruct (Z.ltb_spec (maxPos c / (res c * ratio) * (res c * ratio)) g).
  - by rewrite decide_False by lia.
  - rewrite decide_True by lia. rewrite py_div_pos by done. cbn.
    by rewrite Z.div_div by lia.
Qed.

Lemma reduceRes_getPointNum_witness :
  exists low, reduceRes (mkChrom 0 7000 1000 "chr1" (Some 3)) 2 = Ok low /\
    getPointNum low 5000 = Ok (Some 2) /\ getPointNum low 7000 = Ok None.
Proof.
  destruct (reduceRes_getPointNum (mkChrom 0 7000 1000 "chr1" (Some 3)) 2)
    as (low & Hlow & Hnum).
  - cbn. lia.
  - lia.
  - exists 0. reflexivity.
  - exists low. split; [exact Hlow|].
    rewrite (Hnum 5000 5 eq_refl), (Hnum 7000 7 eq_refl).
    vm_compute in Hlow. injection Hlow as <-. split; reflexivity.
Defined.

(** X23 ([matFromBed], [structureFromBed], [chromFromBed]): when
    [chromFromBed] gives a positive resolution and [minPos <= maxPos],
    [matFromBed] without a structure builds the structure of the file over
    the whole chromosome; it raises ValueError when that structure has no
    point, and otherwise returns a square matrix with one row per point, or
    prints and exits with the status 1. *)
Theorem matFromBed_inferred_structure `{Floats float}
    (path : list (@Contact float)) (c : ChromParameters) :
  chromFromBed path = Ok c -> 0 < res c -> minPos c <= maxPos c ->
  exists s, structureFromBed path None None None 0 = Ok s /\
    chrom s = c /\ offset s = 0 /\
    Z.of_nat (length (points s)) = (maxPos c - minPos c) / res c + 1 /\
    (getPoints s = [] -> matFromBed path None = Raise ValueError) /\
    (getPoints s <> [] ->
     exists mat, contact_matrix path s = Ok mat /\
       square (length (getPoints s)) mat /\
       (matFromBed path None = Ok mat \/
        exists printed, matFromBed path None = Raise (SystemExit printed 1))).
Proof.
  intros Hc Hres Hle.
  destruct (structureFromBed_valid path None None None 0 c Hc Hres)
    as (s & Hs & Hchrom & Hoff & Hinv & Hlen & Hdense); cbn [default]; try lia.
  exists s. split; [exact Hs|]. split; [exact Hchrom|]. split; [exact Hoff|].
  split; [exact Hlen|]. split.
  - intros Hnone. unfold matFromBed, structure_or_default. rewrite Hs.
    cbn [rbind]. unfold contact_matrix, getPointNums. rewrite Hnone. reflexivity.
  - intros Hsome.
    destruct (contact_matrix_ok path s Hsome) as [mat Hmat].
    + rewrite Hchrom. lia.
    + exact Hinv.
    + intros p Hp. apply list_elem_of_lookup in Hp as [k Hk].
      assert ((index <$> getPoints s) !! k = Some (index p)) as Hi
        by (by rewrite list_lookup_fmap, Hk).
      rewrite Hdense, list_lookup_fmap in Hi.
      destruct (seq 0 _ !! k) as [m|] eqn:Hm; [|discriminate].
      apply lookup_seq in Hm as [-> Hlt]. cbn in Hi. injection Hi as <-. lia.
    + exists mat. split; [exact Hmat|]. split.
      * destruct (contact_matrix_entry path s mat Hmat) as (Hsq & _).
        unfold getPointNums in Hsq. by rewrite length_fmap in Hsq.
      * by apply (matFromBed_checks path None s).
Qed.

Lemma matFromBed_inferred_structure_witness :
  exists s, @structureFromBed Z int_floats [Sample.contact 5000 3] None None None 0
            = Ok s /\
    exists mat, @contact_matrix Z int_floats [Sample.contact 5000 3] s = Ok mat /\
      square (length (getPoints s)) mat.
Proof.
  destruct (@matFromBed_inferred_structure Z int_floats [Sample.contact 5000 3]
              (mkChrom 1000 5000 1000 "chr1" (Some 0)))
    as (s & Hs & _ & _ & _ & _ & Hmat).
  - reflexivity.
  - cbn. lia.
  - cbn. lia.
  - exists s. split; [exact Hs|].
    destruct Hmat as (mat & Hmat & Hsq & _).
    + vm_compute in Hs. injection Hs as <-. discriminate.
    + exists mat. by split.
Defined.

Section SortedScan.
Context `{Floats float}.
Implicit Types (line r : @Contact float) (path rest l : list (@Contact float)).

(** Positions that are not below the running minimum raise the running
    maximum as [max] does. *)
Lemma track_above (mn mx p : Z) : mn <= p -> track (mn, mx) p = (mn, Z.max mx p).
Proof.
  intros Hp. unfold track.
  destruct (Z.ltb_spec p mn); [lia|].
  rewrite Z.gtb_ltb. destruct (Z.ltb_spec mx p); f_equal; lia.
Qed.

Lemma bounds_fold_above l : forall (mn mx : Z),
  (forall line, line ∈ l -> mn <= field1 line /\ mn <= field4 line) ->
  exists mx',
    foldl (fun b line => track (track b (field1 line)) (field4 line)) (mn, mx) l
    = (mn, mx') /\
    mx <= mx' /\
    forall line, line ∈ l -> field1 line <= mx' /\ field4 line <= mx'.
Proof.
  induction l as [|r l IH]; intros mn mx Hall.
  - exists mx. split; [reflexivity|]. split; [lia|].
    intros line Hin. by apply not_elem_of_nil in Hin.
  - cbn [foldl]. destruct (Hall r (list_elem_of_here _ _)) as [H1 H4].
    rewrite !track_above by done.
    destruct (IH mn (Z.max (Z.max mx (field1 r)) (field4 r))) as (mx' & Hrun & Hle & Hup).
    { intros line Hin. by apply Hall, list_elem_of_further. }
    exists mx'. split; [exact Hrun|]. split; [lia|].
    intros line [->|Hin]%elem_of_cons; [lia|by apply Hup].
Qed.

End SortedScan.

(** X24 ([chromFromBed]): on a file whose positions and resolution are
    exact as floats (below 2^53 in absolute value), when no position of the
    file is below the first one, as in a file sorted by position, and the
    resolution is positive, the range from [minPos] to [maxPos] holds every
    position of the file. *)
Theorem chromFromBed_sorted_file `{Floats float} (r : @Contact float)
    (rest : list (@Contact float)) :
  exact_file (r :: rest) ->
  0 < field2 r - field1 r ->
  (forall line, line ∈ r :: rest ->
     field1 r <= field1 line /\ field1 r <= field4 line) ->
  exists c, chromFromBed (r :: rest) = Ok c /\
    minPos c <= field1 r < minPos c + res c /\
    forall line, line ∈ r :: rest ->
      minPos c <= field1 line <= maxPos c /\ minPos c <= field4 line <= maxPos c.
Proof.
  intros [Hexact _] Hres Hfirst.
  assert (field1 r < float_info_max) as Hmax.
  { destruct (Hexact r (list_elem_of_here _ _)) as [Hr _].
    unfold exact_float in Hr.
    assert (2 ^ 53 < float_info_max) by (by vm_compute). lia. }
  rewrite chromFromBed_run.
  rewrite (proj2 (Z.eqb_neq _ _)) by lia.
  eexists. split; [reflexivity|]. cbn [minPos maxPos res foldl].
  assert (track (float_info_max, 0) (field1 r) = (field1 r, 0)) as ->.
  { unfold track. destruct (Z.ltb_spec (field1 r) float_info_max); [done|lia]. }
  destruct (Hfirst r (list_elem_of_here _ _)) as [_ H4].
  rewrite track_above by done.
  destruct (bounds_fold_above rest (field1 r) (Z.max 0 (field4 r)))
    as (mx & -> & Hle & Hup).
  { intros line Hin. by apply Hfirst, list_elem_of_further. }
  cbn [fst snd].
  pose proof (floor_multiple (field1 r) _ Hres) as Hfl.
  assert (mx <= ceil_div mx (field2 r - field1 r) * (field2 r - field1 r)) as Hceil.
  { unfold ceil_div. pose proof (floor_multiple (- mx) _ Hres). lia. }
  split; [lia|].
  intros line [->|Hin]%elem_of_cons.
  - lia.
  - destruct (Hup line Hin). destruct (Hfirst line (list_elem_of_further _ _ _ Hin)).
    lia.
Qed.

Lemma chromFromBed_sorted_file_witness :
  exists c, chromFromBed [@mkContact Z "chr1" 1200 2200 5300 3;
                          @mkContact Z "chr1" 2200 3200 7100 1] = Ok c /\
    minPos c = 1000 /\ maxPos c = 8000.
Proof.
  destruct (@chromFromBed_sorted_file Z int_floats
              (@mkContact Z "chr1" 1200 2200 5300 3)
              [@mkContact Z "chr1" 2200 3200 7100 1]) as (c & Hc & _).
  - split.
    + intros line Hin.
      repeat (apply elem_of_cons in Hin as [->|Hin]; [by vm_compute|]).
      by apply not_elem_of_nil in Hin.
    + intros r [= <-]. by vm_compute.
  - cbn. lia.
  - intros line Hin.
    repeat (apply elem_of_cons in Hin as [->|Hin]; [cbn; lia|]).
    by apply not_elem_of_nil in Hin.
  - exists c. split; [exact Hc|].
    vm_compute in Hc. injection Hc as <-. split; reflexivity.
Defined.

(** X25 ([make_compatible]): when the consensus that [make_compatible]
    computes is empty, no genomic coordinate being counted once per
    structure of the list, it raises IndexError at the first structure,
    unless the list is empty: then it returns and nothing is changed. *)
Theorem make_compatible_no_consensus `{Floats float}
    (heap : list (@Structure float)) (structures : list nat) :
  (forall a, a ∈ structures -> (a < length heap)%nat) ->
  consensus_of (omap (fun a => heap !! a) structures) = [] ->
  make_compatible heap structures
  = match structures with
    | [] => Ok heap
    | _ :: _ => Raise IndexError
    end.
Proof.
  intros Hvalid Hnone. unfold make_compatible. rewrite Hnone.
  destruct structures as [|a refs]; [reflexivity|].
  destruct (lookup_lt_is_Some_2 heap a (Hvalid a (list_elem_of_here _ _))) as [s Hs].
  cbn [for_each]. rewrite Hs. reflexivity.
Qed.

Lemma make_compatible_no_consensus_witness :
  @make_compatible Z [Sample.three_points; Sample.one_point] [0%nat; 1%nat]
  = Raise IndexError.
Proof.
  apply (@make_compatible_no_consensus Z int_floats
           [Sample.three_points; Sample.one_point] [0%nat; 1%nat]).
  - intros a Ha. repeat (apply elem_of_cons in Ha as [->|Ha]; [cbn; lia|]).
    by apply not_elem_of_nil in Ha.
  - by vm_compute.
Defined.
